(** * teamcityrun: the build-log normalizer ([logparse], [cleanupLog])

    A shallow embedding of the log cleaning code of teamcityrun (the file
    holding [logparse] and [cleanupLog]) and the properties of it that the
    specification states.

    Conventions of the embedding:
    - a Go [string] is a sequence of bytes: [string] of 8-bit [ascii];
    - a Go [int] is a [Z] (no value computed here leaves the 64-bit range:
      times are sums of three two-character fields), lengths and the
      indentation counter are [nat];
    - [panic] is the [Panic] constructor of [result]; nothing recovers from
      it, the output written before it stands;
    - standard output is the list of the strings written by the successive
      [fmt.Printf] calls, oldest first; its bytes are their concatenation;
    - a [bufio.Scanner] is what its successive [Scan] calls yield: the lines
      up to the first [Scan] that fails ([scanLines]) and, when that [Scan]
      failed on an over-long line, the buffered chunk that the [Scan] after
      it returns ([scanChunk]). *)

From Stdlib Require Import Ascii ZArith Bool Lia DecimalString.
From Stdlib Require String.
From stdpp Require Import base list strings gmap.

Local Open Scope Z_scope.

(** ** Bytes and strings *)

Definition byte_tab : ascii := "009"%char.
Definition byte_lf : ascii := "010"%char.
Definition byte_cr : ascii := "013"%char.

Definition TAB : string := String byte_tab EmptyString.
Definition LF : string := String byte_lf EmptyString.
Definition CR : string := String byte_cr EmptyString.

(** [s[n:]] for [n <= len(s)]. *)
Fixpoint str_drop (n : nat) (s : string) : string :=
  match n, s with
  | O, _ => s
  | S n', String _ s' => str_drop n' s'
  | S _, EmptyString => EmptyString
  end.

(** [s[:n]] for [n <= len(s)]. *)
Fixpoint str_take (n : nat) (s : string) : string :=
  match n, s with
  | O, _ => EmptyString
  | S n', String c s' => String c (str_take n' s')
  | S _, EmptyString => EmptyString
  end.

(** [strings.HasPrefix(s, p)]: the first [len(p)] bytes of [s] are [p]. *)
Fixpoint HasPrefix (s p : string) {struct p} : bool :=
  match p with
  | EmptyString => true
  | String b p' =>
      match s with
      | String a s' => Ascii.eqb a b && HasPrefix s' p'
      | EmptyString => false
      end
  end.

(** The last byte of a string, [None] when it is empty. *)
Fixpoint last_byte (s : string) : option ascii :=
  match s with
  | EmptyString => None
  | String c EmptyString => Some c
  | String _ s' => last_byte s'
  end.

(** [s[:len(s)-1]]. *)
Fixpoint chop (s : string) : string :=
  match s with
  | EmptyString => EmptyString
  | String _ EmptyString => EmptyString
  | String c s' => String c (chop s')
  end.

(** [strings.HasSuffix(s, p)]: the last [len(p)] bytes of [s] are [p]. *)
Definition HasSuffix (s p : string) : bool :=
  (String.length p <=? String.length s)%nat
  && String.eqb (str_drop (String.length s - String.length p) s) p.

(** ** Panics and results *)

Inductive panic : Type :=
| ExpectingByte (line : string) (b : ascii)
    (* perr(fmt.Sprintf("expecting %c", b)) *)
| ExpectingChars (line : string) (n : nat)
    (* perr(fmt.Sprintf("expecting %d characters", n)) *)
| SliceBounds (n cap : nat)
    (* runtime error: slice bounds out of range [:n] with capacity cap *)
| IndexRange (i : Z) (len : nat)
    (* runtime error: index out of range [i] with length len *)
| NoLineAfterTestOutput.
    (* panic(fmt.Errorf("test output not followed by a line")) *)

Inductive result (A : Type) : Type :=
| Ok (a : A)
| Panic (p : panic).
Arguments Ok {A} a.
Arguments Panic {A} p.

Definition is_panic {A : Type} (r : result A) : bool :=
  match r with Ok _ => false | Panic _ => true end.

#[global] Instance result_ret : MRet result := fun A a => Ok a.
#[global] Instance result_bind : MBind result := fun A B k r =>
  match r with
  | Ok a => k a
  | Panic p => Panic p
  end.
#[global] Instance result_fmap : FMap result := fun A B f r =>
  match r with
  | Ok a => Ok (f a)
  | Panic p => Panic p
  end.

(** ** strconv.Atoi

    The fast path of [strconv.Atoi], the one taken for a string of 1 to 18
    bytes: an optional sign, then decimal digits only.  [None] is a syntax
    error; the caller drops the error and keeps the value 0 returned with
    it.  [logparse] only calls it on two-byte strings. *)

Definition digit_of (c : ascii) : option Z :=
  let n := Z.of_nat (nat_of_ascii c) in
  if (48 <=? n) && (n <=? 57) then Some (n - 48) else None.

Fixpoint atoi_digits (n : Z) (s : string) : option Z :=
  match s with
  | EmptyString => Some n
  | String c s' =>
      match digit_of c with
      | Some d => atoi_digits (n * 10 + d) s'
      | None => None
      end
  end.

Definition Atoi (s : string) : option Z :=
  match s with
  | EmptyString => None
  | String c s' =>
      if Ascii.eqb c "-"%char then
        match s' with
        | EmptyString => None
        | _ => option_map Z.opp (atoi_digits 0 s')
        end
      else if Ascii.eqb c "+"%char then
        match s' with
        | EmptyString => None
        | _ => atoi_digits 0 s'
        end
      else atoi_digits 0 s
  end.

(** [n, _ := strconv.Atoi(s)]: the value with the error dropped. *)
Definition Atoi_ (s : string) : Z := default 0 (Atoi s).

(** ** The records *)

Section Cleanup.

(** [float64] and the two library functions that work on it are taken as
    given: [fmt_g e] is [fmt.Sprintf("%g", e)], and [json_Unmarshal text] is
    [Some te] when [json.Unmarshal([]byte(text), te)] returns no error on a
    fresh [testEvent]. *)
Context {float64 : Type}.

Record testEvent : Type := mkTestEvent {
  Time : string;
  Action : string;
  Package : string;
  Test : string;
  Elapsed : float64;
  Output : string
}.

Record logline : Type := mkLogline {
  raw : string;
  time : Z;
  indent : nat;
  tags : list string;
  text : string;
  addtext : string;
  testEvent_ : option testEvent
}.

Context (fmt_g : float64 -> string).
Context (json_Unmarshal : string -> option testEvent).

(** ** logparse

    The closures of [logparse] share the variable [rest]; each becomes a
    function from [rest] to a result and the new [rest]. *)

Definition parser (A : Type) : Type := string -> result (A * string).

Section Logparse.
Variable line : string.

Definition expectByte (b : ascii) : parser unit := fun rest =>
  match rest with
  | EmptyString => Panic (ExpectingByte line b)
  | String c rest' =>
      if Ascii.eqb c b then Ok (tt, rest') else Panic (ExpectingByte line b)
  end.

Definition expectLen (n : nat) : parser string := fun rest =>
  if (String.length rest <? n)%nat then Panic (ExpectingChars line n)
  else Ok (str_take n rest, str_drop n rest).

End Logparse.

Definition consumeMaybe (b : ascii) (rest : string) : string :=
  match rest with
  | String c rest' => if Ascii.eqb c b then rest' else rest
  | EmptyString => rest
  end.

(** The indentation loop: count and drop the leading tabs. *)
Fixpoint skip_tabs (n : nat) (rest : string) : nat * string :=
  match rest with
  | String c rest' =>
      if Ascii.eqb c byte_tab then skip_tabs (S n) rest' else (n, rest)
  | EmptyString => (n, rest)
  end.

(** The inner loop of the tags: the first [i] with [rest[i] == ']'], as
    [(rest[:i], rest[i+1:])]. *)
Fixpoint find_close (rest : string) : option (string * string) :=
  match rest with
  | EmptyString => None
  | String c rest' =>
      if Ascii.eqb c "]"%char then Some (EmptyString, rest')
      else match find_close rest' with
           | Some (tag, after) => Some (String c tag, after)
           | None => None
           end
  end.

(** The tags loop.  Every turn that goes on drops at least the two brackets
    from [rest], so [String.length rest] turns are enough
    ([tags_loop_fuel]). *)
Fixpoint tags_loop (fuel : nat) (tgs : list string) (rest : string)
  : list string * string :=
  match fuel with
  | O => (tgs, consumeMaybe " "%char rest)
  | S fuel' =>
      let rest := consumeMaybe " "%char rest in
      match rest with
      | String c rest' =>
          if Ascii.eqb c "["%char then
            match find_close rest' with
            | Some (tag, after) => tags_loop fuel' (tgs ++ [tag]) after
            | None => (tgs, rest')
            end
          else (tgs, rest)
      | EmptyString => (tgs, rest)
      end
  end.

(** [logparse] after its first test: from [expectByte('[')] on. *)
Definition logparse_body (line : string) : result (option logline) :=
  let rest := line in
  (* timestamp *)
  '(_, rest) ← expectByte line "["%char rest;
  '(hh, rest) ← expectLen line 2 rest;
  let hour := Atoi_ hh in
  '(_, rest) ← expectByte line ":"%char rest;
  '(mm, rest) ← expectLen line 2 rest;
  let minute := Atoi_ mm in
  '(_, rest) ← expectByte line ":"%char rest;
  '(ss, rest) ← expectLen line 2 rest;
  let second := Atoi_ ss in
  '(_, rest) ← expectByte line "]"%char rest;
  let ll_time := hour * 60 * 60 + minute * 60 + second in
  '(_, rest) ← expectLen line 1 rest; (* flags? *)
  '(_, rest) ← expectByte line ":"%char rest;
  (* indentation *)
  let '(ll_indent, rest) := skip_tabs 0 rest in
  (* tags *)
  let '(ll_tags, rest) := tags_loop (String.length rest) [] rest in
  Ok (Some {| raw := line; time := ll_time; indent := ll_indent;
              tags := ll_tags; text := rest; addtext := "";
              testEvent_ := None |}).

Definition logparse (line : string) : result (option logline) :=
  match line with
  | String c _ =>
      if negb (Ascii.eqb c "["%char) then Ok None else logparse_body line
  | EmptyString => logparse_body line
  end.

(** ** bufio.Scanner

    [bufio.NewScanner] splits with [bufio.ScanLines]: a line ends at each
    newline, the last line may lack it (and is dropped when empty), and one
    carriage return before the end of a line is dropped.

    A line that does not fit the scanner's buffer of [maxScanTokenSize]
    bytes with its newline (a line of 65536 bytes or more) makes [Scan]
    record [ErrTooLong] and return false, the buffer left as it is, full with
    the first [maxScanTokenSize] bytes of that line.  [cleanupLog] never
    looks at the error, and a [Scan] called after the failed one hands the
    buffer to [ScanLines] as the last data of the input: it returns true
    with the whole buffer, less one carriage return at its end, as the line.
    Every [Scan] after that returns false; the rest of the input is never
    read.  At the end of the input [Scan] returns false for good.

    The reader [logbody] is the sequence of its bytes: it is taken to
    deliver them without error and to report the end of the input by a read
    of its own that returns no data, as a file does. *)

Definition maxScanTokenSize : Z := 64 * 1024.

(** The lines between the newlines, the line terminators removed. *)
Fixpoint split_lines (data : string) : list string :=
  match data with
  | EmptyString => []
  | String c data' =>
      if Ascii.eqb c byte_lf then EmptyString :: split_lines data'
      else match split_lines data' with
           | [] => [String c EmptyString]
           | l :: ls => String c l :: ls
           end
  end.

Definition dropCR (l : string) : string :=
  match last_byte l with
  | Some c => if Ascii.eqb c byte_cr then chop l else l
  | None => l
  end.

Definition fits (l : string) : bool :=
  Z.of_nat (String.length l) <? maxScanTokenSize.

(** The lines up to the first one that does not fit. *)
Fixpoint while_fits (ls : list string) : list string :=
  match ls with
  | [] => []
  | l :: ls' => if fits l then l :: while_fits ls' else []
  end.

(** The first line that does not fit, if there is one. *)
Fixpoint first_unfit (ls : list string) : option string :=
  match ls with
  | [] => None
  | l :: ls' => if fits l then first_unfit ls' else Some l
  end.

(** The successive values of [s.Text()] for the scanner of [logbody], up to
    the first [Scan] that returns false. *)
Definition scanLines (logbody : string) : list string :=
  map dropCR (while_fits (split_lines logbody)).

(** The value of [s.Text()] for the [Scan] that follows a [Scan] failed with
    [ErrTooLong]: the full buffer, through [dropCR]. *)
Definition scanChunk (logbody : string) : option string :=
  match first_unfit (split_lines logbody) with
  | Some l => Some (dropCR (str_take (Z.to_nat maxScanTokenSize) l))
  | None => None
  end.

(** A scanner between two loops: [sc_run] are the lines of the [Scan]s to
    come up to the first that returns false, [sc_next] the line of the
    [Scan] after that one, when it returns true. *)
Record scanner : Type := mkScanner {
  sc_run : list string;
  sc_next : option string
}.

Definition NewScanner (logbody : string) : scanner :=
  mkScanner (scanLines logbody) (scanChunk logbody).

(** The scanner once a [Scan] has returned false. *)
Definition failed (s : scanner) : scanner :=
  mkScanner (option_list (sc_next s)) None.

(** ** The stack

    [stack := make([]string, 0, 20)] is a backing array and a length; the
    capacity is the length of the backing array.  Nothing appends to it, so
    the array is never reallocated. *)

Record slice : Type := mkSlice {
  sarr : list string;
  slen : nat
}.

Definition scap (s : slice) : nat := length (sarr s).

(** The elements of the slice, [stack[0]] to [stack[len(stack)-1]]. *)
Definition elems (s : slice) : list string := take (slen s) (sarr s).

Definition make_stack : slice := mkSlice (replicate 20 EmptyString) 0.

(** [stack[:n]] *)
Definition reslice (s : slice) (n : nat) : result slice :=
  if (n <=? scap s)%nat then Ok (mkSlice (sarr s) n)
  else Panic (SliceBounds n (scap s)).

(** [stack[i] = v] *)
Definition set_index (s : slice) (i : Z) (v : string) : result slice :=
  if (0 <=? i) && (i <? Z.of_nat (slen s))
  then Ok (mkSlice (<[Z.to_nat i := v]> (sarr s)) (slen s))
  else Panic (IndexRange i (slen s)).

(** [for i := pl; i < len(stack); i++ { stack[i] = "" }], with [n] turns
    left. *)
Fixpoint zero_fill (n : nat) (i : nat) (stack : slice) : result slice :=
  match n with
  | O => Ok stack
  | S n' =>
      stack ← set_index stack (Z.of_nat i) EmptyString;
      zero_fill n' (S i) stack
  end.

(** [for i := range ll.tags { stack[len(stack)-len(ll.tags)+i] = ll.tags[i] }],
    from turn [i] on; [ntags] is [len(ll.tags)] and [tgs] is [ll.tags[i:]]. *)
Fixpoint store_tags (ntags : nat) (i : nat) (tgs : list string)
    (stack : slice) : result slice :=
  match tgs with
  | [] => Ok stack
  | t :: tgs' =>
      stack ← set_index stack
                (Z.of_nat (slen stack) - Z.of_nat ntags + Z.of_nat i) t;
      store_tags ntags (S i) tgs' stack
  end.

Definition treeize (stack : slice) (ll : logline) : result slice :=
  let pl := slen stack in
  stack ← reslice stack (indent ll);
  stack ← zero_fill (slen stack - pl) pl stack;
  store_tags (length (tags ll)) 0 (tags ll) stack.

Definition topOfStackIs (stack : slice) (s : string) : bool :=
  (0 <? slen stack)%nat
  && String.eqb (default EmptyString (sarr stack !! (slen stack - 1)%nat)) s.

Definition stackHas (stack : slice) (s : string) : bool :=
  existsb (fun z => String.eqb z s) (elems stack).

(** ** The modes *)

Definition verboseNothing : Z := 0.
Definition verboseGoTestVerbose : Z := 1.
Definition verboseTestOutput : Z := 2.
Definition verboseAllText : Z := 3.

Definition modeRawText : Z := Z.shiftl 1 0.
Definition modeShowHeader : Z := Z.shiftl 1 1.
Definition modeShowTestOutput : Z := Z.shiftl 1 2.
Definition modeShowRoot : Z := Z.shiftl 1 3.
Definition modeShowStep1 : Z := Z.shiftl 1 4.
Definition modeShowStep2 : Z := Z.shiftl 1 5.
Definition modeShowStep2Top : Z := Z.shiftl 1 6.
Definition modeShowStep2OutputActions : Z := Z.shiftl 1 7.
Definition modeSkipBeforeDwz : Z := Z.shiftl 1 8.
Definition modeSkipJson : Z := Z.shiftl 1 9.
Definition modeSkipBeforeMakeTest : Z := Z.shiftl 1 10.
Definition modeMassaged : Z := Z.shiftl 1 11.
Definition modeShowOnlyFailed : Z := Z.shiftl 1 12.

(** [mode&m != 0] *)
Definition has (mode m : Z) : bool := negb (Z.land mode m =? 0).

Definition lor_all (ms : list Z) : Z := foldr Z.lor 0 ms.

(** The [switch verbose] of [cleanupLog]. *)
Definition mode_of (verbose : Z) : Z :=
  if verbose =? verboseNothing then
    lor_all [modeShowHeader; modeShowStep2Top; modeMassaged;
             modeSkipBeforeMakeTest; modeShowOnlyFailed; modeSkipJson]
  else if verbose =? verboseGoTestVerbose then
    lor_all [modeShowHeader; modeShowStep2Top; modeShowStep2OutputActions;
             modeMassaged; modeSkipJson; modeSkipBeforeDwz]
  else if verbose =? verboseTestOutput then
    lor_all [modeShowHeader; modeShowRoot; modeShowStep1; modeShowStep2;
             modeShowTestOutput; modeMassaged; modeSkipJson]
  else
    lor_all [modeRawText; modeShowHeader].

(** ** The state of the scan

    The variables of [cleanupLog] that live across the turns of the main
    loop, the standard output, and [emitted], which the loop body declares
    anew (false) on every turn before the display rules run. *)

Record state : Type := mkState {
  stack : slice;
  lastTime : Z;
  first : bool;
  firstMassaged : bool;
  afterDwz : bool;
  afterMakeTest : bool;
  cached : list logline;
  emitted : bool;
  out : list string
}.

Definition set_stack (v : slice) (st : state) : state :=
  mkState v (lastTime st) (first st) (firstMassaged st) (afterDwz st)
    (afterMakeTest st) (cached st) (emitted st) (out st).
Definition set_lastTime (v : Z) (st : state) : state :=
  mkState (stack st) v (first st) (firstMassaged st) (afterDwz st)
    (afterMakeTest st) (cached st) (emitted st) (out st).
Definition set_first (v : bool) (st : state) : state :=
  mkState (stack st) (lastTime st) v (firstMassaged st) (afterDwz st)
    (afterMakeTest st) (cached st) (emitted st) (out st).
Definition set_firstMassaged (v : bool) (st : state) : state :=
  mkState (stack st) (lastTime st) (first st) v (afterDwz st)
    (afterMakeTest st) (cached st) (emitted st) (out st).
Definition set_afterDwz (v : bool) (st : state) : state :=
  mkState (stack st) (lastTime st) (first st) (firstMassaged st) v
    (afterMakeTest st) (cached st) (emitted st) (out st).
Definition set_afterMakeTest (v : bool) (st : state) : state :=
  mkState (stack st) (lastTime st) (first st) (firstMassaged st) (afterDwz st)
    v (cached st) (emitted st) (out st).
Definition set_cached (v : list logline) (st : state) : state :=
  mkState (stack st) (lastTime st) (first st) (firstMassaged st) (afterDwz st)
    (afterMakeTest st) v (emitted st) (out st).
Definition set_emitted (v : bool) (st : state) : state :=
  mkState (stack st) (lastTime st) (first st) (firstMassaged st) (afterDwz st)
    (afterMakeTest st) (cached st) v (out st).

(** [fmt.Printf] of an already formatted string. *)
Definition print (s : string) (st : state) : state :=
  mkState (stack st) (lastTime st) (first st) (firstMassaged st) (afterDwz st)
    (afterMakeTest st) (cached st) (emitted st) (out st ++ [s]).

Definition set_addtext (v : string) (ll : logline) : logline :=
  mkLogline (raw ll) (time ll) (indent ll) (tags ll) (text ll) v
    (testEvent_ ll).
Definition set_testEvent (v : option testEvent) (ll : logline) : logline :=
  mkLogline (raw ll) (time ll) (indent ll) (tags ll) (text ll) (addtext ll) v.

(** ** Formatting *)

(** The column header, ["  \316\224T\tTEXT\n"] (the delta is two bytes of
    UTF-8). *)
Definition massaged_header : string :=
  "  " +:+ String "206"%char (String "148"%char "T") +:+ TAB +:+ "TEXT" +:+ LF.

Fixpoint spaces (n : nat) : string :=
  match n with
  | O => EmptyString
  | S n' => String " "%char (spaces n')
  end.

(** [fmt.Sprintf("% 4d", n)]: the sign (a space when there is none) and the
    decimal digits, padded with spaces on the left to four bytes. *)
Definition fmt_4d (n : Z) : string :=
  let digits := DecimalString.NilZero.string_of_uint (N.to_uint (Z.abs_N n)) in
  let body := (if n <? 0 then "-" else " ") +:+ digits in
  spaces (4 - String.length body) +:+ body.

(** The first statements of [emitMassaged]: one trailing newline goes, and
    then one carriage return before it. *)
Definition strip_eol (txt : string) : string :=
  match last_byte txt with
  | Some c =>
      if Ascii.eqb c byte_lf then
        let txt := chop txt in
        match last_byte txt with
        | Some c' => if Ascii.eqb c' byte_cr then chop txt else txt
        | None => txt
        end
      else txt
  | None => txt
  end.

(** One row of the massaged report. *)
Definition massaged_row (delta : Z) (txt : string) : string :=
  if 0 <? delta then fmt_4d delta +:+ TAB +:+ txt +:+ LF
  else "    " +:+ TAB +:+ txt +:+ LF.

(** ** The emitters

    [emitMassaged], [emitText] and [emitRaw] are closures over the loop's
    variable [ll]; [dumpCached] assigns to [ll] before it calls
    [emitMassaged], so [ll] is an argument here. *)

Definition emitMassaged (ll : logline) (txt : string) (st : state) : state :=
  let st :=
    if firstMassaged st
    then print massaged_header (set_firstMassaged false st)
    else st in
  let txt := strip_eol txt in
  let st := print (massaged_row (time ll - lastTime st) txt) st in
  set_lastTime (time ll) st.

Definition emitText (ll : logline) (st : state) : state :=
  if emitted st then st
  else emitMassaged ll (text ll) (set_emitted true st).

Definition emitRaw (ll : logline) (st : state) : state :=
  if emitted st then st
  else print (raw ll +:+ LF) (set_emitted true st).

(** ** The body of the main loop, after [treeize] and the auxiliary line *)

Definition buildStep_of (stk : slice) : bool :=
  topOfStackIs stk "Step 2/2" || topOfStackIs stk "Step 1/1".

(** [if buildStep { if len(ll.text) > 0 && ll.text[0] == '{' { ... } }] *)
Definition decode_event (buildStep : bool) (ll : logline) : logline :=
  if buildStep then
    match text ll with
    | String c _ =>
        if Ascii.eqb c "{"%char then
          match json_Unmarshal (text ll) with
          | Some te =>
              if negb (String.eqb (Action te) "") then set_testEvent (Some te) ll
              else ll
          | None => ll
          end
        else ll
    | EmptyString => ll
    end
  else ll.

(** The three blocks that set [afterDwz] and [afterMakeTest]. *)
Definition update_flags (buildStep : bool) (ll : logline) (st : state) : state :=
  let st :=
    if negb (afterDwz st) && buildStep && HasPrefix (text ll) "+ dwz --version"
    then set_afterDwz true st else st in
  let st :=
    if negb (afterMakeTest st) && buildStep && HasPrefix (text ll) "+ make test"
    then set_afterMakeTest true st else st in
  let st :=
    if (negb (afterDwz st) || negb (afterMakeTest st)) && buildStep
       && HasPrefix (text ll) "Finding latest patch"
    then set_afterDwz true (set_afterMakeTest true st) else st in
  st.

(** [if first { first = false; lastTime = ll.time }] *)
Definition update_first (ll : logline) (st : state) : state :=
  if first st then set_lastTime (time ll) (set_first false st) else st.

Definition emitTextOrRaw (mode : Z) (ll : logline) (st : state) : state :=
  if has mode modeMassaged then emitText ll st else emitRaw ll st.

Definition rule_root (mode : Z) (ll : logline) (st : state) : state :=
  if has mode modeShowRoot && (slen (stack st) =? 0)%nat
  then emitTextOrRaw mode ll st else st.

Definition rule_step1 (mode : Z) (ll : logline) (st : state) : state :=
  if has mode modeShowStep1 && stackHas (stack st) "Step 1/2"
  then emitTextOrRaw mode ll st else st.

(** The value of [shouldShow] after its four tests. *)
Definition shouldShow (mode : Z) (ll : logline) (st : state) : bool :=
  negb (has mode modeSkipBeforeDwz && negb (afterDwz st))
  && negb (has mode modeSkipJson && bool_decide (testEvent_ ll <> None))
  && negb (has mode modeShowStep2Top && negb (topOfStackIs (stack st) "Step 2/2"))
  && negb (has mode modeSkipBeforeMakeTest && negb (afterMakeTest st)).

Definition rule_step2 (mode : Z) (ll : logline) (st : state) : state :=
  if (has mode modeShowStep2 || has mode modeShowStep2Top)
     && (stackHas (stack st) "Step 2/2" || stackHas (stack st) "Step 1/1")
     && shouldShow mode ll st
  then
    if has mode modeMassaged then
      if negb (topOfStackIs (stack st) "Test Output") then emitText ll st
      else st
    else
      if topOfStackIs (stack st) "Test Output" then
        if has mode modeShowTestOutput then emitRaw ll st else st
      else emitRaw ll st
  else st.

Definition rule_testOutput (mode : Z) (ll : logline) (st : state) : state :=
  if has mode modeShowTestOutput && topOfStackIs (stack st) "Test Output"
  then
    if has mode modeMassaged then emitMassaged ll (addtext ll) st
    else print (addtext ll +:+ LF) st
  else st.

Definition rule_go (mode : Z) (buildStep : bool) (ll : logline) (st : state)
  : state :=
  if has mode modeShowOnlyFailed && buildStep && HasPrefix (text ll) "Go "
  then emitText ll st else st.

Definition rule_outputActions (mode : Z) (ll : logline) (st : state) : state :=
  match testEvent_ ll with
  | Some te =>
      if has mode modeShowStep2OutputActions && String.eqb (Action te) "output"
      then emitMassaged ll (Output te) st else st
  | None => st
  end.

Definition rule_fail (mode : Z) (ll : logline) (st : state) : state :=
  match testEvent_ ll with
  | Some te =>
      if negb (has mode modeShowOnlyFailed) && String.eqb (Action te) "fail"
         && negb (has mode modeShowStep2OutputActions)
      then emitMassaged ll ("FAIL" +:+ TAB +:+ Package te) st else st
  | None => st
  end.

(** [dumpCached]: the turn for one buffered record.  Only records with an
    event are ever appended to [cached] ([cached_events]), so the [None]
    branch, a nil dereference in the source, is never taken. *)
Definition dump_one (st : state) (ll : logline) : state :=
  match testEvent_ ll with
  | Some te =>
      if String.eqb (Action te) "output" then emitMassaged ll (Output te) st
      else st
  | None => st
  end.

Definition dumpCached (st : state) : state :=
  set_cached [] (foldl dump_one st (cached st)).

(** The block under [mode&modeShowOnlyFailed != 0 && ll.testEvent != nil]. *)
Definition onlyFailed (ll : logline) (te : testEvent) (st : state) : state :=
  let st := set_cached (cached st ++ [ll]) st in
  if String.eqb (Test te) "" then
    if String.eqb (Action te) "pass" then
      set_cached []
        (emitMassaged ll (Package te +:+ TAB +:+ fmt_g (Elapsed te) +:+ "s") st)
    else if String.eqb (Action te) "skip" then
      set_cached []
        (emitMassaged ll (Package te +:+ TAB +:+ "[no test files]") st)
    else if String.eqb (Action te) "output" then
      st (* do nothing *)
    else if String.eqb (Action te) "fail" then
      let st := dumpCached st in
      set_cached [] (emitMassaged ll (Package te +:+ TAB +:+ "FAIL") st)
    else
      set_cached [] (emitMassaged ll (Package te +:+ TAB +:+ Action te) st)
  else
    if String.eqb (Action te) "pass" then set_cached [] st
    else if String.eqb (Action te) "fail" then dumpCached st
    else st.

Definition rule_onlyFailed (mode : Z) (ll : logline) (st : state) : state :=
  match testEvent_ ll with
  | Some te => if has mode modeShowOnlyFailed then onlyFailed ll te st else st
  | None => st
  end.

(** The display rules, in the order of the source, from [emitted := false]
    on. *)
Definition display (mode : Z) (buildStep : bool) (ll : logline) (st : state)
  : state :=
  let st := set_emitted false st in
  let st := rule_root mode ll st in
  let st := rule_step1 mode ll st in
  let st := rule_step2 mode ll st in
  let st := rule_testOutput mode ll st in
  let st := rule_go mode buildStep ll st in
  let st := rule_outputActions mode ll st in
  let st := rule_fail mode ll st in
  rule_onlyFailed mode ll st.

(** One turn of the main loop for the parsed record [ll], from
    [buildStep := ...] on: [stack st] is the stack after [treeize] and [ll]
    has its auxiliary line. *)
Definition process (mode : Z) (ll : logline) (st : state) : state :=
  let buildStep := buildStep_of (stack st) in
  let ll := decode_event buildStep ll in
  let st := update_flags buildStep ll st in
  let st := update_first ll st in
  display mode buildStep ll st.

(** ** The main loop and [cleanupLog] *)

(** The main loop over the lines the scanner still has.  The result is the
    state at the end and the panic that ended the run, if one did. *)
Fixpoint scan (mode : Z) (st : state) (lines : list string)
  : state * option panic :=
  match lines with
  | [] => (st, None)
  | l :: rest =>
      if has mode modeRawText then scan mode (print (l +:+ LF) st) rest
      else if HasSuffix l " tests processed." then
        ((if has mode modeShowHeader then print (l +:+ LF) st else st), None)
      else if HasPrefix l "Current time: " then (print (l +:+ LF) st, None)
      else
        match logparse l with
        | Panic p => (st, Some p)
        | Ok None => scan mode st rest (* weird unparsable line? *)
        | Ok (Some ll) =>
            match treeize (stack st) ll with
            | Panic p => (st, Some p)
            | Ok stk =>
                let st := set_stack stk st in
                if topOfStackIs stk "Test Output" then
                  match rest with
                  | [] => (st, Some NoLineAfterTestOutput)
                  | l2 :: rest2 =>
                      scan mode (process mode (set_addtext l2 ll) st) rest2
                  end
                else scan mode (process mode ll st) rest
            end
        end
  end.

(** The header loop, [for s.Scan() { ...; if line == "" { break } }]: the
    lines up to the first empty one, echoed when the mode shows the header.
    The result is the output and the scanner as the loop leaves it: at the
    [break] the lines after the empty one are still to come, and when the
    loop ends because [Scan] returned false the scanner has failed. *)
Fixpoint header_loop (mode : Z) (o : list string) (lines : list string)
    (next : option string) : list string * scanner :=
  match lines with
  | [] => (o, failed (mkScanner [] next))
  | l :: rest =>
      let o := if has mode modeShowHeader then o ++ [l +:+ LF] else o in
      if String.eqb l "" then (o, mkScanner rest next)
      else header_loop mode o rest next
  end.

Definition header (mode : Z) (o : list string) (s : scanner)
  : list string * scanner :=
  header_loop mode o (sc_run s) (sc_next s).

Definition init_state (o : list string) : state :=
  mkState make_stack 0 true true false false [] false o.

(** The run of [cleanupLog] on a scanner: the header loop, then the main
    loop on the lines that the scanner yields from there until a [Scan]
    returns false (the main loop calls [Scan] no more after that). *)
Definition cleanupLines (mode : Z) (s : scanner) : state * option panic :=
  let '(o, s) := header mode [] s in
  scan mode (init_state o) (sc_run s).

(** [cleanupLog(logbody, verbose)]: the chunks written to standard output
    and the panic that ended the run, if one did. *)
Definition cleanupLog (logbody : string) (verbose : Z)
  : list string * option panic :=
  let '(st, p) := cleanupLines (mode_of verbose) (NewScanner logbody) in
  (out st, p).

(** The bytes of an output. *)
Definition bytes_of (o : list string) : string := foldr String.append "" o.

End Cleanup.

Arguments testEvent : clear implicits.
Arguments logline : clear implicits.
Arguments state : clear implicits.

(** ** Notions used by the statements *)

(** What one [fmt.Printf("%s\n", l)] writes. *)
Definition echo (l : string) : string := l +:+ LF.

(** The text made of the lines [ls], each ended by a newline. *)
Definition unlines (ls : list string) : string := bytes_of (map echo ls).

(** No newline byte in the string. *)
Fixpoint no_lf (s : string) : bool :=
  match s with
  | EmptyString => true
  | String c s' => negb (Ascii.eqb c byte_lf) && no_lf s'
  end.

(** The string ends with a carriage return. *)
Definition ends_cr (l : string) : bool :=
  match last_byte l with
  | Some c => Ascii.eqb c byte_cr
  | None => false
  end.

(** A line the scanner hands over as it is: no newline inside, no carriage
    return at its end, short enough for the scanner's buffer. *)
Definition clean_line (l : string) : bool :=
  no_lf l && negb (ends_cr l) && fits l.

(** The string is not empty. *)
Definition nonempty (l : string) : bool := negb (String.eqb l "").

(** The lines that the two loops of [cleanupLog] get from a scanner: the
    lines up to the first [Scan] that returns false and, when that [Scan]
    was one of the header loop (no empty line came before it), the line of
    the [Scan] after it. *)
Definition lines_read (s : scanner) : list string :=
  sc_run s ++ (if forallb nonempty (sc_run s) then option_list (sc_next s)
               else []).

(** The rows that successive massaged emissions [(time, text)] add to the
    output, when the column header is still due ([fm]) and the last massaged
    row was emitted at time [lt]: the one-time column header, then for each
    emission the gap since the previous one and the text without its line
    end. *)
Fixpoint rows (fm : bool) (lt : Z) (es : list (Z * string)) : list string :=
  match es with
  | [] => []
  | (t, txt) :: es' =>
      (if fm then [massaged_header] else [])
      ++ massaged_row (t - lt) (strip_eol txt) :: rows false t es'
  end.

(** Whether the column header is still due after these emissions, and the
    time of the last massaged row after them. *)
Definition rows_first (fm : bool) (es : list (Z * string)) : bool :=
  match es with [] => fm | _ :: _ => false end.
Definition rows_time (lt : Z) (es : list (Z * string)) : Z :=
  foldl (fun _ e => e.1) lt es.

Section Notions.

Context {float64 : Type}.
Context (fmt_g : float64 -> string).

#[local] Abbreviation logline := (logline float64).
#[local] Abbreviation state := (state float64).
#[local] Abbreviation testEvent := (testEvent float64).

(** The output fragments held in a buffer of pending records, in buffer
    order, each with the time of its own record. *)
Fixpoint buffered_output (pending : list logline) : list (Z * string) :=
  match pending with
  | [] => []
  | c :: pending' =>
      match testEvent_ c with
      | Some e =>
          if String.eqb (Action e) "output"
          then (time c, Output e) :: buffered_output pending'
          else buffered_output pending'
      | None => buffered_output pending'
      end
  end.

(** What the only-failed policy emits for a package-level event, in the
    words of the specification: [pending] is the buffer with the event's
    record appended, [t] the time of that record. *)
Definition spec_package_emits (pending : list logline) (t : Z) (te : testEvent)
  : list (Z * string) :=
  if String.eqb (Action te) "pass" then
    [(t, Package te +:+ TAB +:+ fmt_g (Elapsed te) +:+ "s")]
  else if String.eqb (Action te) "skip" then
    [(t, Package te +:+ TAB +:+ "[no test files]")]
  else if String.eqb (Action te) "output" then
    []
  else if String.eqb (Action te) "fail" then
    buffered_output pending ++ [(t, Package te +:+ TAB +:+ "FAIL")]
  else
    [(t, Package te +:+ TAB +:+ Action te)].

(** The buffer after a package-level event. *)
Definition spec_package_buffer (pending : list logline) (te : testEvent)
  : list logline :=
  if String.eqb (Action te) "output" then pending else [].

(** The same two for the event of one test case: "pass" drops the buffer,
    "fail" flushes it, anything else stays buffered. *)
Definition spec_test_emits (pending : list logline) (te : testEvent)
  : list (Z * string) :=
  if String.eqb (Action te) "pass" then []
  else if String.eqb (Action te) "fail" then buffered_output pending
  else [].
Definition spec_test_buffer (pending : list logline) (te : testEvent)
  : list logline :=
  if String.eqb (Action te) "pass" then []
  else if String.eqb (Action te) "fail" then []
  else pending.

(** Every record of a buffer carries an event. *)
Definition all_events (pending : list logline) : Prop :=
  Forall (fun c => testEvent_ c <> None) pending.

(** The state of the latch while the rules run for the record [ll], from
    the state [st0] the first rule started in: either nothing was emitted
    yet, or the record was emitted, once, raw or massaged. *)
Definition latch_inv (ll : logline) (st0 st : state) : Prop :=
  stack st = stack st0
  /\ ((emitted st = false /\ out st = out st0
       /\ firstMassaged st = firstMassaged st0 /\ lastTime st = lastTime st0)
      \/ (emitted st = true
          /\ (out st = out st0 ++ [echo (raw ll)]
              \/ out st = out st0 ++ rows (firstMassaged st0) (lastTime st0)
                                      [(time ll, text ll)]))).

End Notions.

(** The number of tab bytes a string starts with. *)
Fixpoint leading_tabs (s : string) : nat :=
  match s with
  | String c s' => if Ascii.eqb c byte_tab then S (leading_tabs s') else O
  | EmptyString => O
  end.

(** [has mode m] for a given mode and bit, by computation. *)
Ltac has_compute :=
  repeat match goal with
    | |- context [has ?m ?b] =>
        let r := eval vm_compute in (has m b) in change (has m b) with r
    end.

(** * Sample logs

    Concrete inputs for the statements below.  A [float64] value is stood
    for by its ["%g"] rendering, and [json.Unmarshal] by its results on the
    three JSON texts used. *)

Definition sample_g (e : string) : string := e.

(** The double quote. *)
Definition dq : string := String "034"%char "".

(** ["key":"value"] *)
Definition jstr (k v : string) : string :=
  dq +:+ k +:+ dq +:+ ":" +:+ dq +:+ v +:+ dq.

(** [{"Action":"output","Package":"A","Output":"x"}] *)
Definition json_output : string :=
  "{" +:+ jstr "Action" "output" +:+ "," +:+ jstr "Package" "A" +:+ ","
  +:+ jstr "Output" "x" +:+ "}".
(** [{"Action":"fail","Package":"A"}] *)
Definition json_fail : string :=
  "{" +:+ jstr "Action" "fail" +:+ "," +:+ jstr "Package" "A" +:+ "}".
(** [{"Action":"pass","Package":"A","Elapsed":1.5}] *)
Definition json_pass : string :=
  "{" +:+ jstr "Action" "pass" +:+ "," +:+ jstr "Package" "A" +:+ ","
  +:+ dq +:+ "Elapsed" +:+ dq +:+ ":1.5}".

Definition ev_output : testEvent string := mkTestEvent "" "output" "A" "" "0" "x".
Definition ev_fail : testEvent string := mkTestEvent "" "fail" "A" "" "0" "".
Definition ev_pass : testEvent string := mkTestEvent "" "pass" "A" "" "1.5" "".

Definition sample_json (s : string) : option (testEvent string) :=
  if String.eqb s json_output then Some ev_output
  else if String.eqb s json_fail then Some ev_fail
  else if String.eqb s json_pass then Some ev_pass
  else None.

Fixpoint tabs (n : nat) : string :=
  match n with
  | O => EmptyString
  | S n' => String byte_tab (tabs n')
  end.

(** A log line at time [hms] ("HH:MM:SS") and depth [depth], with the flag
    byte [' ']. *)
Definition log_line (hms : string) (depth : nat) (rest : string) : string :=
  "[" +:+ hms +:+ "] :" +:+ tabs depth +:+ rest.

Definition row (delta txt : string) : string := delta +:+ TAB +:+ txt +:+ LF.

(** The stack [path] as [treeize] leaves it on the fresh stack. *)
Definition stack_of (path : list string) : slice :=
  mkSlice (path ++ replicate (20 - length path) EmptyString) (length path).

(** The state of the scan once the header (one empty line) is done and the
    stack holds [path]. *)
Definition state_at (path : list string) : state string :=
  set_stack (stack_of path) (init_state [LF]).

(** A parsed record with no auxiliary line and no event. *)
Definition record (hms : string) (depth : nat) (tgs : list string)
    (rest txt : string) : logline string :=
  mkLogline (log_line hms depth rest) (Atoi_ (str_take 2 hms) * 60 * 60
    + Atoi_ (str_take 2 (str_drop 3 hms)) * 60 + Atoi_ (str_drop 6 hms))
    depth tgs txt "" None.

(** * Further notions: the shape of a log line *)

(** The tags as a log line has them: each in brackets after one space. *)
Fixpoint render_tags (tgs : list string) : string :=
  match tgs with
  | [] => EmptyString
  | t :: tgs' => " [" +:+ t +:+ "]" +:+ render_tags tgs'
  end.

(** A log line: the time, the flag byte, the tabs of the depth, the tags,
    one space and the text. *)
Definition render_line (hh mm ss : string) (flag : ascii) (depth : nat)
    (tgs : list string) (txt : string) : string :=
  "[" +:+ hh +:+ ":" +:+ mm +:+ ":" +:+ ss +:+ "]"
  +:+ String flag (":" +:+ tabs depth +:+ render_tags tgs +:+ " " +:+ txt).

(** No closing bracket in the string. *)
Fixpoint no_close (s : string) : bool :=
  match s with
  | EmptyString => true
  | String c s' => negb (Ascii.eqb c "]"%char) && no_close s'
  end.

(** The fixed prefix of a line of the log: ['['], three fields of two
    bytes between [':'], [']'], a flag byte and [':']. *)
Definition shaped (line : string) : Prop :=
  exists (hh mm ss : string) (flag : ascii) (body : string),
    String.length hh = 2%nat /\ String.length mm = 2%nat
    /\ String.length ss = 2%nat
    /\ line = "[" +:+ hh +:+ ":" +:+ mm +:+ ":" +:+ ss +:+ "]"
              +:+ String flag (":" +:+ body).

(** [s] ends with [t]. *)
Definition is_suffix (t s : string) : Prop := exists pre, s = pre +:+ t.

Section Progress.

Context {float64 : Type}.

(** A line on which neither [logparse] nor [treeize] panics: it is no
    record, or a record with at most as many tags as its depth and a depth
    of at most 20. *)
Definition safe_line (l : string) : bool :=
  match logparse (float64:=float64) l with
  | Ok None => true
  | Ok (Some ll) =>
      (length (tags ll) <=? indent ll)%nat && (indent ll <=? 20)%nat
  | Panic _ => false
  end.

(** The state [st'] comes after [st] in a run: the output has only grown,
    and the one-shot flags have only moved in their direction. *)
Definition advances (st st' : state float64) : Prop :=
  out st `prefix_of` out st'
  /\ (afterDwz st = true -> afterDwz st' = true)
  /\ (afterMakeTest st = true -> afterMakeTest st' = true)
  /\ (first st = false -> first st' = false)
  /\ (firstMassaged st = false -> firstMassaged st' = false).

End Progress.

Arguments safe_line : clear implicits.

(** * The command line and the summary ([main], [getBuildStatusSummary]) *)

(** ** The arguments of the "log" command

    The loop of [main] over [os.Args[2:]]: an argument that starts with
    "-v" adds its length minus one to [verbose], any other becomes
    [logarg]. *)

Definition is_flag (a : string) : bool := HasPrefix a "-v".

Definition log_arg_step (acc : Z * string) (a : string) : Z * string :=
  if is_flag a then (acc.1 + (Z.of_nat (String.length a) - 1), acc.2)
  else (acc.1, a).

(** [(verbose, logarg)] after the loop. *)
Definition log_args (args : list string) : Z * string :=
  foldl log_arg_step (0, EmptyString) args.

(** What the "log" command goes on to: [usage()] (which exits), or, once
    the log named [logarg] is downloaded or opened, the call of [cleanupLog]
    on it with [verbose]. *)
Inductive log_call : Type :=
| Usage
| Cleanup (logarg : string) (verbose : Z).

Definition log_command (args : list string) : log_call :=
  let '(verbose, logarg) := log_args args in
  if String.eqb logarg "" then Usage else Cleanup logarg verbose.

(** The levels that the flags among [args] add up to, and their number. *)
Fixpoint flag_levels (args : list string) : Z :=
  match args with
  | [] => 0
  | a :: args' =>
      (if is_flag a then Z.of_nat (String.length a) - 1 else 0)
      + flag_levels args'
  end.
Fixpoint flag_count (args : list string) : Z :=
  match args with
  | [] => 0
  | a :: args' => (if is_flag a then 1 else 0) + flag_count args'
  end.

(** ** The counts of [getBuildStatusSummary] *)

Record buildStatus : Type := mkBuildStatus {
  Id : Z;
  BuildTypeId : string;
  State : string;
  Status : string;
  StatusText : string;
  FinishOnAgentDate : string
}.

(** The three maps [bslast], [bstot] and [bssucc]. *)
Record counts : Type := mkCounts {
  bslast : gmap string string;
  bstot : gmap string Z;
  bssucc : gmap string Z
}.

(** Reading a Go map: the zero value for a missing key. *)
Definition get_str (m : gmap string string) (k : string) : string :=
  default EmptyString (m !! k).
Definition get_int (m : gmap string Z) (k : string) : Z :=
  default 0 (m !! k).

(** One turn of [for _, build := range bslist.Build]. *)
Definition count_step (c : counts) (build : buildStatus) : counts :=
  if negb (String.eqb (State build) "finished") then c (* continue *)
  else
    let id := BuildTypeId build in
    let last :=
      if String.eqb (get_str (bslast c) id) ""
      then <[id := Status build]> (bslast c) else bslast c in
    let tot := <[id := get_int (bstot c) id + 1]> (bstot c) in
    let succ :=
      if String.eqb (Status build) "SUCCESS"
      then <[id := get_int (bssucc c) id + 1]> (bssucc c) else bssucc c in
    mkCounts last tot succ.

Definition count_builds (builds : list buildStatus) : counts :=
  foldl count_step (mkCounts ∅ ∅ ∅) builds.

(** [conv] *)
Definition conv (s : string) : string :=
  if String.eqb s "FAILURE" then "FAIL"
  else if String.eqb s "SUCCESS" then "OK"
  else s.

(** The finished builds of type [t] among [builds], those of them that
    succeeded, and the status of the first of them that has one. *)
Definition finished_of (t : string) (build : buildStatus) : bool :=
  String.eqb (State build) "finished" && String.eqb (BuildTypeId build) t.
Fixpoint finished_count (t : string) (builds : list buildStatus) : Z :=
  match builds with
  | [] => 0
  | b :: builds' =>
      (if finished_of t b then 1 else 0) + finished_count t builds'
  end.
Fixpoint success_count (t : string) (builds : list buildStatus) : Z :=
  match builds with
  | [] => 0
  | b :: builds' =>
      (if finished_of t b && String.eqb (Status b) "SUCCESS" then 1 else 0)
      + success_count t builds'
  end.
Fixpoint first_status (t : string) (builds : list buildStatus) : string :=
  match builds with
  | [] => EmptyString
  | b :: builds' =>
      if finished_of t b && negb (String.eqb (Status b) "")
      then Status b else first_status t builds'
  end.

(** ** The cells of the summary table

    [strings.SplitN(btype, "_", 4)], the test that sends a build type to
    the table, and the name under which the table looks its cell up. *)

(** [s] cut at its first byte [c]. *)
Fixpoint cut_at (c : ascii) (s : string) : option (string * string) :=
  match s with
  | EmptyString => None
  | String x s' =>
      if Ascii.eqb x c then Some (EmptyString, s')
      else match cut_at c s' with
           | Some (a, b) => Some (String x a, b)
           | None => None
           end
  end.

(** [strings.SplitN(s, "_", 4)] *)
Definition SplitN4 (s : string) : list string :=
  match cut_at "_" s with
  | None => [s]
  | Some (v0, r0) =>
      match cut_at "_" r0 with
      | None => [v0; r0]
      | Some (v1, r1) =>
          match cut_at "_" r1 with
          | None => [v0; v1; r1]
          | Some (v2, r2) => [v0; v1; v2; r2]
          end
      end
  end.

(** [strings.Replace(s, "/", "_", -1)] *)
Fixpoint replace_slash (s : string) : string :=
  match s with
  | EmptyString => EmptyString
  | String x s' =>
      String (if Ascii.eqb x "/" then "_"%char else x) (replace_slash s')
  end.

(** The platform and the version a build type goes to the table with,
    [None] when it is listed on a line of its own. *)
Definition table_entry (btype : string) : option (string * string) :=
  match SplitN4 btype with
  | [v0; v1; v2; v3] =>
      if HasPrefix btype "Delve_" then Some (v1 +:+ "/" +:+ v2, v3) else None
  | _ => None
  end.

(** [fmt.Sprintf("Delve_%s_%s", strings.Replace(plat, "/", "_", -1), ver)] *)
Definition cell_type (plat ver : string) : string :=
  "Delve_" +:+ replace_slash plat +:+ "_" +:+ ver.

(** No byte [c] in the string. *)
Fixpoint lacks (c : ascii) (s : string) : bool :=
  match s with
  | EmptyString => true
  | String x s' => negb (Ascii.eqb x c) && lacks c s'
  end.

(** * Properties *)

Section Properties.

Context {float64 : Type}.
Context (fmt_g : float64 -> string).
Context (json_Unmarshal : string -> option (testEvent float64)).

#[local] Abbreviation logline := (logline float64).
#[local] Abbreviation state := (state float64).
#[local] Abbreviation testEvent := (testEvent float64).

(** ** The context tracker: [treeize] *)

Lemma set_index_ok (s : slice) (i : nat) (v : string) :
  (i < slen s)%nat ->
  set_index s (Z.of_nat i) v = Ok (mkSlice (<[i := v]> (sarr s)) (slen s)).
Proof.
  intros Hi. unfold set_index.
  replace ((0 <=? Z.of_nat i) && (Z.of_nat i <? Z.of_nat (slen s))) with true.
  - by rewrite Nat2Z.id.
  - symmetry. apply andb_true_iff. split; [apply Z.leb_le | apply Z.ltb_lt]; lia.
Qed.

(** The zero-filling loop never fails inside the slice; it writes the empty
    string at [i], ..., [i + n - 1] and nothing else. *)
Lemma zero_fill_spec (n i : nat) (s : slice) :
  (n = 0 \/ i + n <= slen s)%nat ->
  exists a,
    zero_fill n i s = Ok (mkSlice a (slen s))
    /\ length a = length (sarr s)
    /\ (forall j, (i <= j < i + n)%nat -> (j < length (sarr s))%nat ->
                  a !! j = Some EmptyString)
    /\ (forall j, ~ (i <= j < i + n)%nat -> a !! j = sarr s !! j).
Proof.
  revert i s. induction n as [|n IH]; intros i s Hle.
  - exists (sarr s). destruct s; simpl. repeat split; auto. intros; lia.
  - simpl. rewrite set_index_ok by lia. simpl.
    destruct (IH (S i) (mkSlice (<[i := EmptyString]> (sarr s)) (slen s)))
      as (a & Ha & Hlen & Hin & Hout); [simpl; lia|].
    simpl in *. exists a. rewrite length_insert in Hlen.
    repeat split; auto.
    + intros j Hj Hjl. destruct (decide (j = i)) as [->|Hne].
      * rewrite Hout by lia. by apply list_lookup_insert_eq.
      * apply Hin; [lia|]. by rewrite length_insert.
    + intros j Hj. rewrite Hout by lia. apply list_lookup_insert_ne. lia.
Qed.

(** The tags loop never fails when the tags fit the slice; turn [i + j]
    writes [tgs !! j] at [len(stack) - ntags + i + j]. *)
Lemma store_tags_spec (ntags : nat) (tgs : list string) (i : nat) (s : slice) :
  (ntags <= slen s)%nat -> (i + length tgs = ntags)%nat ->
  exists a,
    store_tags ntags i tgs s = Ok (mkSlice a (slen s))
    /\ length a = length (sarr s)
    /\ (forall j, (j < length tgs)%nat ->
                  (slen s - ntags + i + j < length (sarr s))%nat ->
                  a !! (slen s - ntags + i + j)%nat = tgs !! j)
    /\ (forall j, ~ (slen s - ntags + i <= j < slen s)%nat ->
                  a !! j = sarr s !! j).
Proof.
  revert i s. induction tgs as [|t tgs IH]; intros i s Hn Hi.
  - exists (sarr s). destruct s; simpl. repeat split; auto.
    simpl. intros; lia.
  - simpl in Hi. simpl.
    replace (Z.of_nat (slen s) - Z.of_nat ntags + Z.of_nat i)
      with (Z.of_nat (slen s - ntags + i)) by lia.
    rewrite set_index_ok by lia. simpl.
    destruct (IH (S i) (mkSlice (<[(slen s - ntags + i)%nat := t]> (sarr s))
                          (slen s)))
      as (a & Ha & Hlen & Hin & Hout); [simpl; lia | simpl; lia |].
    simpl in *. exists a. rewrite length_insert in Hlen.
    repeat split; auto.
    + intros [|j] Hj Hjl.
      * rewrite Hout by lia. simpl.
        replace (slen s - ntags + i + 0)%nat with (slen s - ntags + i)%nat
          by lia.
        apply list_lookup_insert_eq. lia.
      * simpl.
        replace (slen s - ntags + i + S j)%nat
          with (slen s - ntags + S i + j)%nat by lia.
        apply Hin; [lia|]. rewrite length_insert. lia.
    + intros j Hj. rewrite Hout by lia. apply list_lookup_insert_ne. lia.
Qed.

(** What [treeize] returns when the tags fit the depth and the depth fits
    the capacity, slot by slot. *)
Lemma treeize_spec (stk : slice) (ll : logline) :
  (length (tags ll) <= indent ll)%nat -> (indent ll <= scap stk)%nat ->
  exists a,
    treeize stk ll = Ok (mkSlice a (indent ll))
    /\ length a = scap stk
    /\ (forall j, (j < length (tags ll))%nat ->
                  a !! (indent ll - length (tags ll) + j)%nat = tags ll !! j)
    /\ (forall j, (slen stk <= j < indent ll - length (tags ll))%nat ->
                  a !! j = Some EmptyString)
    /\ (forall j, (j < slen stk)%nat -> (j < indent ll - length (tags ll))%nat ->
                  a !! j = sarr stk !! j).
Proof.
  intros Hn Hd. unfold treeize, reslice.
  replace (indent ll <=? scap stk)%nat with true
    by (symmetry; apply Nat.leb_le; lia).
  simpl.
  destruct (zero_fill_spec (indent ll - slen stk) (slen stk)
              (mkSlice (sarr stk) (indent ll)))
    as (a & Ha & Hlen & Hin & Hout); [simpl; lia|].
  simpl in *. rewrite Ha. simpl.
  destruct (store_tags_spec (length (tags ll)) (tags ll) 0
              (mkSlice a (indent ll)))
    as (b & Hb & Hblen & Hbin & Hbout); [simpl; lia | simpl; lia |].
  simpl in *. rewrite Hb. exists b. unfold scap in *.
  repeat split; auto; try lia.
  - intros j Hj.
    replace (indent ll - length (tags ll) + j)%nat
      with (indent ll - length (tags ll) + 0 + j)%nat by lia.
    apply Hbin; lia.
  - intros j Hj. rewrite Hbout by lia. apply Hin; lia.
  - intros j Hj1 Hj2. rewrite Hbout by lia. apply Hout. lia.
Qed.

(** More tags than the depth: the first tag goes to a negative index. *)
Lemma treeize_index_panic (stk : slice) (ll : logline) :
  (indent ll <= scap stk)%nat -> (indent ll < length (tags ll))%nat ->
  treeize stk ll
  = Panic (IndexRange (Z.of_nat (indent ll) - Z.of_nat (length (tags ll)))
             (indent ll)).
Proof.
  intros Hd Hn. unfold treeize, reslice.
  replace (indent ll <=? scap stk)%nat with true
    by (symmetry; apply Nat.leb_le; lia).
  simpl.
  destruct (zero_fill_spec (indent ll - slen stk) (slen stk)
              (mkSlice (sarr stk) (indent ll)))
    as (a & Ha & _); [simpl; lia|].
  rewrite Ha. simpl.
  destruct (tags ll) as [|t tgs] eqn:Ht; [simpl in Hn; lia|].
  cbn [store_tags]. unfold set_index. cbn [slen].
  rewrite Z.add_0_r.
  replace (0 <=? Z.of_nat (indent ll) - Z.of_nat (length (t :: tgs)))
    with false by (symmetry; apply Z.leb_gt; lia).
  reflexivity.
Qed.

(** Deeper than the capacity: the reslicing fails. *)
Lemma treeize_slice_panic (stk : slice) (ll : logline) :
  (scap stk < indent ll)%nat ->
  treeize stk ll = Panic (SliceBounds (indent ll) (scap stk)).
Proof.
  intros Hd. unfold treeize, reslice.
  replace (indent ll <=? scap stk)%nat with false
    by (symmetry; apply Nat.leb_gt; lia).
  reflexivity.
Qed.

(** The capacity of the stack never changes: it is 20 from [make_stack]
    on. *)
Lemma treeize_cap (stk stk' : slice) (ll : logline) :
  treeize stk ll = Ok stk' -> scap stk' = scap stk.
Proof.
  intros H.
  destruct (decide (indent ll <= scap stk)%nat) as [Hd|Hd].
  - destruct (decide (length (tags ll) <= indent ll)%nat) as [Hn|Hn].
    + destruct (treeize_spec stk ll Hn Hd) as (a & Ha & Hlen & _).
      rewrite Ha in H. injection H as <-. exact Hlen.
    + rewrite treeize_index_panic in H by lia. discriminate.
  - rewrite treeize_slice_panic in H by lia. discriminate.
Qed.

(** C7 (as amended).  Context path reconstruction: for a record of depth
    [d] with tags [t0..tk] such that [len(tags) <= d <= 20] (20 is the
    capacity of the stack), [treeize] returns, the stack then has length
    exactly [d], its last [k+1] slots are the tags in order, every slot
    from the previous length up to the first tag is the empty string, and
    the slots below both are left as they were. *)
Theorem C7_treeize_path (stk : slice) (ll : logline) :
  scap stk = 20%nat ->
  (length (tags ll) <= indent ll)%nat ->
  (indent ll <= 20)%nat ->
  exists stk',
    treeize stk ll = Ok stk'
    /\ slen stk' = indent ll
    /\ length (elems stk') = indent ll
    /\ drop (indent ll - length (tags ll)) (elems stk') = tags ll
    /\ (forall j, (slen stk <= j < indent ll - length (tags ll))%nat ->
                  elems stk' !! j = Some EmptyString)
    /\ (forall j, (j < slen stk)%nat ->
                  (j < indent ll - length (tags ll))%nat ->
                  elems stk' !! j = elems stk !! j).
Proof.
  intros Hcap Hn Hd.
  destruct (treeize_spec stk ll Hn) as (a & Ha & Hlen & Htags & Hzero & Hold);
    [lia|].
  exists (mkSlice a (indent ll)). unfold elems. simpl.
  split; [exact Ha|]. split; [reflexivity|].
  split; [rewrite length_take; lia|].
  split; [|split].
  - apply list_eq. intros j. rewrite lookup_drop.
    destruct (decide (j < length (tags ll))%nat) as [Hj|Hj].
    + rewrite lookup_take_lt by lia. by apply Htags.
    + rewrite lookup_take_ge by lia. symmetry. apply lookup_ge_None_2. lia.
  - intros j Hj. rewrite lookup_take_lt by lia. by apply Hzero.
  - intros j Hj1 Hj2. rewrite !lookup_take_lt by lia. by apply Hold.
Qed.

(** C10.  [treeize] is partial.  On a stack of capacity 20 it panics exactly
    when the depth of the record exceeds 20 (slice bounds out of range) or
    the record has more tags than its depth (index out of range, at the
    negative index of the first tag); it returns a stack exactly when
    [len(tags) <= indent <= 20]. *)
Theorem C10_treeize_partial (stk : slice) (ll : logline) :
  scap stk = 20%nat ->
  match treeize stk ll with
  | Panic p =>
      ((20 < indent ll)%nat /\ p = SliceBounds (indent ll) 20)
      \/ ((indent ll <= 20)%nat /\ (indent ll < length (tags ll))%nat
          /\ p = IndexRange (Z.of_nat (indent ll) - Z.of_nat (length (tags ll)))
                   (indent ll))
  | Ok _ => (length (tags ll) <= indent ll <= 20)%nat
  end.
Proof.
  intros Hcap.
  destruct (decide (indent ll <= 20)%nat) as [Hd|Hd].
  - destruct (decide (length (tags ll) <= indent ll)%nat) as [Hn|Hn].
    + destruct (treeize_spec stk ll Hn) as (a & Ha & _); [lia|].
      rewrite Ha. lia.
    + rewrite treeize_index_panic by lia. right. repeat split; lia.
  - rewrite treeize_slice_panic by lia. left. split; [lia|]. by rewrite Hcap.
Qed.

(** ** The line parser: [logparse] *)

Lemma find_close_length (rest tag after : string) :
  find_close rest = Some (tag, after) ->
  (String.length tag + 1 + String.length after = String.length rest)%nat.
Proof.
  revert tag after. induction rest as [|c rest IH]; intros tag after; simpl.
  - discriminate.
  - destruct (Ascii.eqb c "]").
    + intros [= <- <-]. simpl. lia.
    + destruct (find_close rest) as [[tag' after']|]; [|discriminate].
      intros [= <- <-]. specialize (IH _ _ eq_refl). simpl. lia.
Qed.

Lemma consumeMaybe_length (b : ascii) (rest : string) :
  (String.length (consumeMaybe b rest) <= String.length rest)%nat.
Proof.
  destruct rest as [|c rest]; simpl; [lia|].
  destruct (Ascii.eqb c b); simpl; lia.
Qed.

(** [String.length rest] turns are as good as any larger number of them:
    the tags loop of the model is the loop of the source. *)
Lemma tags_loop_fuel (n m : nat) (tgs : list string) (rest : string) :
  (String.length rest <= n)%nat -> (String.length rest <= m)%nat ->
  tags_loop n tgs rest = tags_loop m tgs rest.
Proof.
  revert m tgs rest. induction n as [|n IH]; intros m tgs rest Hn Hm.
  - destruct rest; [|simpl in Hn; lia]. by destruct m.
  - destruct m as [|m].
    + destruct rest; [|simpl in Hm; lia]. reflexivity.
    + simpl. pose proof (consumeMaybe_length " " rest) as Hc.
      destruct (consumeMaybe " " rest) as [|c rest'] eqn:Hr; [reflexivity|].
      destruct (Ascii.eqb c "["); [|reflexivity].
      destruct (find_close rest') as [[tag after]|] eqn:Hf; [|reflexivity].
      apply find_close_length in Hf. simpl in Hc. apply IH; lia.
Qed.

Lemma skip_tabs_spec (n : nat) (rest : string) :
  skip_tabs n rest = ((n + leading_tabs rest)%nat, str_drop (leading_tabs rest) rest).
Proof.
  revert n. induction rest as [|c rest IH]; intros n; simpl.
  - f_equal. lia.
  - destruct (Ascii.eqb c byte_tab).
    + rewrite IH. simpl. f_equal. lia.
    + simpl. f_equal. lia.
Qed.

(** The value of a two-byte field: its number when both bytes are decimal
    digits. *)
Lemma Atoi_two_digits (a b : ascii) (x y : Z) :
  digit_of a = Some x -> digit_of b = Some y ->
  Atoi (String a (String b "")) = Some (10 * x + y).
Proof.
  intros Ha Hb. unfold Atoi.
  assert (Ascii.eqb a "-" = false) as ->.
  { apply Ascii.eqb_neq. intros ->. discriminate. }
  assert (Ascii.eqb a "+" = false) as ->.
  { apply Ascii.eqb_neq. intros ->. discriminate. }
  simpl. rewrite Ha, Hb. f_equal. lia.
Qed.

(** C8.  Line parser grammar: a line made of ['['], three two-byte fields
    separated by [':'], [']'], one flag byte, [':'] and any rest is parsed
    (no panic, no [nil]); its time is [hour*3600 + minute*60 + second],
    where a field counts as its number when it is two decimal digits and as
    0 when [strconv.Atoi] rejects it; its indentation is exactly the number
    of tab bytes the rest starts with. *)
Theorem C8_logparse_grammar (hh mm ss : string) (flag : ascii) (body : string) :
  String.length hh = 2%nat ->
  String.length mm = 2%nat ->
  String.length ss = 2%nat ->
  let line :=
    "[" +:+ hh +:+ ":" +:+ mm +:+ ":" +:+ ss +:+ "]" +:+ String flag (":" +:+ body) in
  (exists ll : logline,
     logparse line = Ok (Some ll)
     /\ raw ll = line
     /\ time ll = Atoi_ hh * 3600 + Atoi_ mm * 60 + Atoi_ ss
     /\ indent ll = leading_tabs body)
  /\ (forall f, Atoi f = None -> Atoi_ f = 0)
  /\ (forall a b x y, digit_of a = Some x -> digit_of b = Some y ->
        Atoi_ (String a (String b "")) = 10 * x + y).
Proof.
  intros Hh Hm Hs line. split; [|split].
  - destruct hh as [|h1 [|h2 [|]]]; try discriminate.
    destruct mm as [|m1 [|m2 [|]]]; try discriminate.
    destruct ss as [|s1 [|s2 [|]]]; try discriminate.
    subst line. cbv beta iota fix delta [String.append].
    unfold logparse, logparse_body, expectByte, expectLen.
    cbn -[Atoi_ tags_loop skip_tabs Z.mul Z.add].
    rewrite skip_tabs_spec.
    destruct (tags_loop _ _ _) as [tgs rest] eqn:Ht.
    eexists. split; [reflexivity|]. cbn -[Atoi_ Z.mul Z.add].
    repeat split; lia.
  - intros f Hf. unfold Atoi_. by rewrite Hf.
  - intros a b x y Ha Hb. unfold Atoi_.
    by rewrite (Atoi_two_digits a b x y Ha Hb).
Qed.

(** ** Raw mode *)

Lemma append_cons (c : ascii) (a b : string) :
  String c a +:+ b = String c (a +:+ b).
Proof. reflexivity. Qed.

Lemma append_nil (b : string) : "" +:+ b = b.
Proof. reflexivity. Qed.

Lemma append_assoc (a b c : string) : (a +:+ b) +:+ c = a +:+ (b +:+ c).
Proof.
  induction a as [|x a IH]; [reflexivity|].
  rewrite !append_cons. by rewrite IH.
Qed.

Lemma unlines_cons (l : string) (ls : list string) :
  unlines (l :: ls) = l +:+ LF +:+ unlines ls.
Proof.
  unfold unlines, echo. simpl. by rewrite append_assoc.
Qed.

(** The scanner, run on newline-terminated lines without inner newline,
    finds these lines again. *)
Lemma split_lines_line (l rest : string) :
  no_lf l = true -> split_lines (l +:+ LF +:+ rest) = l :: split_lines rest.
Proof.
  induction l as [|c l IH]; intros Hl.
  - reflexivity.
  - simpl in Hl. apply andb_true_iff in Hl as [Hc Hl].
    rewrite append_cons. cbn [split_lines].
    apply negb_true_iff in Hc. rewrite Hc. by rewrite (IH Hl).
Qed.

Lemma split_lines_unlines (ls : list string) :
  forallb no_lf ls = true -> split_lines (unlines ls) = ls.
Proof.
  induction ls as [|l ls IH]; intros H; [reflexivity|].
  simpl in H. apply andb_true_iff in H as [Hl Hls].
  rewrite unlines_cons, split_lines_line by done. by rewrite IH.
Qed.

Lemma split_lines_no_lf (data : string) :
  forallb no_lf (split_lines data) = true.
Proof.
  induction data as [|c data IH]; [reflexivity|].
  cbn [split_lines]. destruct (Ascii.eqb c byte_lf) eqn:Hc.
  - simpl. exact IH.
  - destruct (split_lines data) as [|l ls]; simpl in *; rewrite Hc; simpl.
    + reflexivity.
    + exact IH.
Qed.

Lemma while_fits_all (ls : list string) :
  forallb fits ls = true -> while_fits ls = ls.
Proof.
  induction ls as [|l ls IH]; intros H; [reflexivity|].
  simpl in *. apply andb_true_iff in H as [-> Hls]. by rewrite IH.
Qed.

Lemma while_fits_fits (ls : list string) :
  forallb fits (while_fits ls) = true.
Proof.
  induction ls as [|l ls IH]; [reflexivity|].
  simpl. destruct (fits l) eqn:Hl; [|reflexivity]. simpl. by rewrite Hl.
Qed.

Lemma while_fits_no_lf (ls : list string) :
  forallb no_lf ls = true -> forallb no_lf (while_fits ls) = true.
Proof.
  induction ls as [|l ls IH]; intros H; [reflexivity|].
  simpl in *. apply andb_true_iff in H as [Hl Hls].
  destruct (fits l); [|reflexivity]. simpl. rewrite Hl. by apply IH.
Qed.

Lemma chop_length (l : string) :
  (String.length (chop l) <= String.length l)%nat.
Proof.
  induction l as [|c l IH]; [simpl; lia|].
  destruct l; simpl in *; lia.
Qed.

Lemma chop_no_lf (l : string) : no_lf l = true -> no_lf (chop l) = true.
Proof.
  induction l as [|c l IH]; [done|].
  intros H. simpl in H. apply andb_true_iff in H as [Hc Hl].
  destruct l as [|c' l]; [done|].
  change (chop (String c (String c' l))) with (String c (chop (String c' l))).
  simpl no_lf at 1. rewrite Hc. simpl. by apply IH.
Qed.

Lemma dropCR_fits (l : string) : fits l = true -> fits (dropCR l) = true.
Proof.
  unfold dropCR. destruct (last_byte l) as [c|]; [|done].
  destruct (Ascii.eqb c byte_cr); [|done].
  unfold fits. intros H. apply Z.ltb_lt in H. apply Z.ltb_lt.
  pose proof (chop_length l). lia.
Qed.

Lemma dropCR_no_lf (l : string) : no_lf l = true -> no_lf (dropCR l) = true.
Proof.
  unfold dropCR. destruct (last_byte l) as [c|]; [|done].
  destruct (Ascii.eqb c byte_cr); [|done]. apply chop_no_lf.
Qed.

Lemma dropCR_id (l : string) : ends_cr l = false -> dropCR l = l.
Proof.
  unfold ends_cr, dropCR. destruct (last_byte l) as [c|]; [|done].
  by intros ->.
Qed.

Lemma forallb_map_dropCR (P : string -> bool) (ls : list string) :
  (forall l, P l = true -> P (dropCR l) = true) ->
  forallb P ls = true -> forallb P (map dropCR ls) = true.
Proof.
  intros HP. induction ls as [|l ls IH]; intros H; [done|].
  simpl in *. apply andb_true_iff in H as [Hl Hls].
  rewrite HP by done. by apply IH.
Qed.

Lemma map_dropCR_id (ls : list string) :
  forallb (fun l => negb (ends_cr l)) ls = true -> map dropCR ls = ls.
Proof.
  induction ls as [|l ls IH]; intros H; [done|].
  simpl in *. apply andb_true_iff in H as [Hl Hls].
  apply negb_true_iff in Hl. by rewrite dropCR_id, IH.
Qed.

(** The lines of the scanner have no newline inside and fit the buffer. *)
Lemma scanLines_no_lf (data : string) : forallb no_lf (scanLines data) = true.
Proof.
  unfold scanLines. apply forallb_map_dropCR; [apply dropCR_no_lf|].
  apply while_fits_no_lf, split_lines_no_lf.
Qed.

Lemma scanLines_fits (data : string) : forallb fits (scanLines data) = true.
Proof.
  unfold scanLines. apply forallb_map_dropCR; [apply dropCR_fits|].
  apply while_fits_fits.
Qed.

(** Scanning lines that were written one [echo] each. *)
Lemma scanLines_unlines (ls : list string) :
  forallb no_lf ls = true -> forallb fits ls = true ->
  scanLines (unlines ls) = map dropCR ls.
Proof.
  intros Hn Hf. unfold scanLines.
  by rewrite split_lines_unlines, while_fits_all.
Qed.

Lemma clean_lines_split (ls : list string) :
  forallb clean_line ls = true ->
  forallb no_lf ls = true
  /\ forallb (fun l => negb (ends_cr l)) ls = true
  /\ forallb fits ls = true.
Proof.
  induction ls as [|l ls IH]; intros H; [done|].
  simpl in *. apply andb_true_iff in H as [Hl Hls].
  unfold clean_line in Hl.
  apply andb_true_iff in Hl as [Hl Hf]. apply andb_true_iff in Hl as [Hn Hc].
  destruct (IH Hls) as (-> & -> & ->). by rewrite Hn, Hc, Hf.
Qed.

Lemma while_fits_app (a b : list string) :
  forallb fits a = true -> while_fits (a ++ b) = a ++ while_fits b.
Proof.
  induction a as [|l a IH]; intros H; [reflexivity|].
  simpl in *. apply andb_true_iff in H as [-> Ha]. by rewrite IH.
Qed.

Lemma first_unfit_app (a b : list string) :
  forallb fits a = true -> first_unfit (a ++ b) = first_unfit b.
Proof.
  induction a as [|l a IH]; intros H; [reflexivity|].
  simpl in *. apply andb_true_iff in H as [-> Ha]. by apply IH.
Qed.

Lemma first_unfit_all (ls : list string) :
  forallb fits ls = true -> first_unfit ls = None.
Proof.
  intros H. rewrite <- (app_nil_r ls). by rewrite first_unfit_app.
Qed.

Lemma first_unfit_no_lf (ls : list string) (l : string) :
  forallb no_lf ls = true -> first_unfit ls = Some l -> no_lf l = true.
Proof.
  induction ls as [|l' ls IH]; intros H Hl; [discriminate|].
  simpl in *. apply andb_true_iff in H as [Hl' Hls].
  destruct (fits l'); [by apply IH|]. by injection Hl as <-.
Qed.

Lemma str_take_length (n : nat) (s : string) :
  (String.length (str_take n s) <= n)%nat.
Proof.
  revert s. induction n as [|n IH]; intros [|c s]; simpl; try lia.
  specialize (IH s). lia.
Qed.

Lemma str_take_all (n : nat) (s : string) :
  (String.length s <= n)%nat -> str_take n s = s.
Proof.
  revert s. induction n as [|n IH]; intros [|c s] H; simpl in *;
    try reflexivity; try lia.
  rewrite IH; [reflexivity|lia].
Qed.

Lemma str_take_no_lf (n : nat) (s : string) :
  no_lf s = true -> no_lf (str_take n s) = true.
Proof.
  revert s. induction n as [|n IH]; intros [|c s] H; try reflexivity.
  simpl in *. apply andb_true_iff in H as [-> Hs]. simpl. by apply IH.
Qed.

Lemma dropCR_length (l : string) :
  (String.length (dropCR l) <= String.length l)%nat.
Proof.
  unfold dropCR. destruct (last_byte l) as [c|]; [|lia].
  destruct (Ascii.eqb c byte_cr); [apply chop_length|lia].
Qed.

(** The chunk that follows a failed [Scan] has no newline inside and is no
    longer than the buffer. *)
Lemma scanChunk_spec (data c : string) :
  scanChunk data = Some c ->
  no_lf c = true
  /\ (String.length c <= Z.to_nat maxScanTokenSize)%nat.
Proof.
  unfold scanChunk. generalize (Z.to_nat maxScanTokenSize). intros n.
  destruct (first_unfit (split_lines data)) as [l|] eqn:Hl; [|discriminate].
  intros Hc. assert (c = dropCR (str_take n l)) as -> by congruence.
  split.
  - apply dropCR_no_lf, str_take_no_lf.
    eapply first_unfit_no_lf; [apply split_lines_no_lf|exact Hl].
  - pose proof (dropCR_length (str_take n l)).
    pose proof (str_take_length n l). lia.
Qed.

(** The scanner of lines that were written one [echo] each: when they all
    fit the buffer, and when the last one does not. *)
Lemma NewScanner_unlines (ls : list string) :
  forallb no_lf ls = true -> forallb fits ls = true ->
  NewScanner (unlines ls) = mkScanner (map dropCR ls) None.
Proof.
  intros Hn Hf. unfold NewScanner, scanChunk.
  rewrite scanLines_unlines by done.
  by rewrite split_lines_unlines, first_unfit_all.
Qed.

Lemma NewScanner_unlines_chunk (ls : list string) (c : string) :
  forallb no_lf ls = true -> no_lf c = true ->
  forallb fits ls = true -> fits c = false ->
  (String.length c <= Z.to_nat maxScanTokenSize)%nat ->
  NewScanner (unlines (ls ++ [c])) = mkScanner (map dropCR ls) (Some (dropCR c)).
Proof.
  intros Hn Hc Hf Hu Hlen. unfold NewScanner, scanLines, scanChunk.
  rewrite split_lines_unlines
    by (rewrite forallb_app, Hn; cbn [forallb]; by rewrite Hc).
  rewrite while_fits_app, first_unfit_app by done.
  cbn [while_fits first_unfit]. rewrite Hu, app_nil_r.
  by rewrite str_take_all.
Qed.

(** The lines read have no newline inside. *)
Lemma lines_read_no_lf (data : string) :
  forallb no_lf (lines_read (NewScanner data)) = true.
Proof.
  unfold lines_read, NewScanner. cbn [sc_run sc_next].
  rewrite forallb_app, scanLines_no_lf.
  destruct (forallb nonempty (scanLines data)); [|reflexivity].
  destruct (scanChunk data) as [c|] eqn:Hc; [|reflexivity].
  destruct (scanChunk_spec data c Hc) as [Hn _]. simpl. by rewrite Hn.
Qed.

(** The lines read are the lines of the scanner, or these and the chunk
    after a header that has no empty line. *)
Lemma lines_read_cases (data : string) :
  lines_read (NewScanner data) = scanLines data
  \/ exists c, scanChunk data = Some c
       /\ forallb nonempty (scanLines data) = true
       /\ lines_read (NewScanner data) = scanLines data ++ [c].
Proof.
  unfold lines_read, NewScanner. cbn [sc_run sc_next].
  destruct (forallb nonempty (scanLines data)) eqn:He;
    [|left; apply app_nil_r].
  destruct (scanChunk data) as [c|] eqn:Hc; [|left; apply app_nil_r].
  right. by exists c.
Qed.

(** Reading lines that were written one [echo] each and that all fit the
    buffer. *)
Lemma lines_read_unlines (ls : list string) :
  forallb no_lf ls = true -> forallb fits ls = true ->
  lines_read (NewScanner (unlines ls)) = map dropCR ls.
Proof.
  intros Hn Hf. rewrite NewScanner_unlines by done.
  unfold lines_read. cbn [sc_run sc_next option_list].
  destruct (forallb nonempty (map dropCR ls)); apply app_nil_r.
Qed.

(** Reading again the lines that were read and written one [echo] each,
    when none of them ends with a carriage return. *)
Lemma lines_read_stable (data : string) :
  forallb (fun l => negb (ends_cr l)) (lines_read (NewScanner data)) = true ->
  lines_read (NewScanner (unlines (lines_read (NewScanner data))))
  = lines_read (NewScanner data).
Proof.
  intros Hc. pose proof (lines_read_no_lf data) as Hn.
  destruct (lines_read_cases data) as [Hr|(c & Hch & He & Hr)].
  - rewrite lines_read_unlines by (done || (rewrite Hr; apply scanLines_fits)).
    by apply map_dropCR_id.
  - destruct (fits c) eqn:Hfc.
    + rewrite lines_read_unlines; [by apply map_dropCR_id|done|].
      rewrite Hr, forallb_app, scanLines_fits. cbn [forallb]. by rewrite Hfc.
    + rewrite Hr in Hc, Hn |- *.
      rewrite forallb_app in Hc, Hn.
      apply andb_true_iff in Hc as [Hcs Hcc].
      apply andb_true_iff in Hn as [Hns Hnc].
      cbn [forallb] in Hcc, Hnc. rewrite andb_true_r in Hcc, Hnc.
      apply negb_true_iff in Hcc.
      destruct (scanChunk_spec data c Hch) as [_ Hlen].
      rewrite NewScanner_unlines_chunk by (done || apply scanLines_fits).
      rewrite map_dropCR_id, dropCR_id by done.
      unfold lines_read. cbn [sc_run sc_next option_list]. by rewrite He.
Qed.

(** The main loop in raw mode echoes every line and nothing else happens. *)
Lemma scan_raw (mode : Z) (st : state) (lines : list string) :
  has mode modeRawText = true ->
  exists st',
    scan fmt_g json_Unmarshal mode st lines = (st', None)
    /\ out st' = out st ++ map echo lines.
Proof.
  intros Hraw. revert st. induction lines as [|l lines IH]; intros st.
  - exists st. simpl. by rewrite app_nil_r.
  - cbn [scan]. rewrite Hraw.
    destruct (IH (print (l +:+ LF) st)) as (st' & Hs & Ho).
    exists st'. split; [exact Hs|]. rewrite Ho. simpl.
    by rewrite <- app_assoc.
Qed.

(** The header loop, when the header is shown, echoes the lines it takes;
    with the lines it leaves to the main loop these are the lines read. *)
Lemma header_shown (mode : Z) (o : list string) (s : scanner) :
  has mode modeShowHeader = true ->
  (header mode o s).1 ++ map echo (sc_run (header mode o s).2)
  = o ++ map echo (lines_read s).
Proof.
  intros Hh. destruct s as [lines next]. unfold header, lines_read.
  cbn [sc_run sc_next].
  revert o. induction lines as [|l lines IH]; intros o.
  - reflexivity.
  - cbn [header_loop forallb]. rewrite Hh. unfold nonempty at 1.
    destruct (String.eqb l "").
    + cbn [negb andb fst snd sc_run]. rewrite app_nil_r.
      by rewrite <- app_assoc.
    + cbn [negb andb]. rewrite IH. by rewrite <- app_assoc.
Qed.

Lemma mode_of_raw (verbose : Z) :
  verbose <> 0 -> verbose <> 1 -> verbose <> 2 ->
  mode_of verbose = Z.lor modeRawText modeShowHeader.
Proof.
  intros H0 H1 H2. unfold mode_of.
  destruct (Z.eqb_spec verbose verboseNothing); [done|].
  destruct (Z.eqb_spec verbose verboseGoTestVerbose); [done|].
  destruct (Z.eqb_spec verbose verboseTestOutput); [done|].
  reflexivity.
Qed.

(** [cleanupLog] in raw mode: every line read from the scanner, echoed. *)
Lemma cleanupLog_raw (logbody : string) (verbose : Z) :
  verbose <> 0 -> verbose <> 1 -> verbose <> 2 ->
  cleanupLog fmt_g json_Unmarshal logbody verbose
  = (map echo (lines_read (NewScanner logbody)), None).
Proof.
  intros H0 H1 H2. unfold cleanupLog, cleanupLines.
  rewrite mode_of_raw by done.
  pose proof (header_shown (Z.lor modeRawText modeShowHeader) []
                (NewScanner logbody) eq_refl) as Hh.
  destruct (header _ [] (NewScanner logbody)) as [o s]. simpl in Hh.
  destruct (scan_raw (Z.lor modeRawText modeShowHeader) (init_state o)
              (sc_run s) eq_refl) as (st' & Hs & Ho).
  rewrite Hs. simpl in Ho. by rewrite Ho, Hh.
Qed.

(** C4 (as amended).  In raw mode (any verbosity other than 0, 1 and 2) the
    normalizer drops no line that it reads from its scanner and never
    panics: the output is every line read, in order, followed by a newline.
    The lines read are the lines of the input up to the first one of 65536
    bytes or more, each less one carriage return at its end; when that
    over-long line comes before the first empty line, its first 65536 bytes
    (less one carriage return at the end) are read as one more line; nothing
    after them is read.  The output equals the input byte for byte when the
    input is a sequence of newline-terminated lines none of which ends with
    a carriage return or exceeds the scanner's buffer. *)
Theorem C4_raw_mode (logbody : string) (verbose : Z) :
  verbose <> 0 -> verbose <> 1 -> verbose <> 2 ->
  cleanupLog fmt_g json_Unmarshal logbody verbose
  = (map echo (lines_read (NewScanner logbody)), None)
  /\ (forall ls, forallb clean_line ls = true -> logbody = unlines ls ->
        bytes_of (cleanupLog fmt_g json_Unmarshal logbody verbose).1 = logbody).
Proof.
  intros H0 H1 H2. split; [by apply cleanupLog_raw|].
  intros ls Hls ->. rewrite cleanupLog_raw by done. simpl.
  destruct (clean_lines_split ls Hls) as (Hn & Hc & Hf).
  rewrite lines_read_unlines by done. by rewrite map_dropCR_id.
Qed.

(** C9 (as amended).  Idempotence of raw mode: when no line that the first
    run reads from its scanner still ends with a carriage return, running
    the normalizer at raw verbosity on the bytes of a raw-verbosity run
    reproduces these bytes.  When the lines that the first run reads all fit
    the scanner's buffer, the second run yields them with one more carriage
    return dropped from each. *)
Theorem C9_raw_idempotent (logbody : string) (v1 v2 : Z) :
  v1 <> 0 -> v1 <> 1 -> v1 <> 2 -> v2 <> 0 -> v2 <> 1 -> v2 <> 2 ->
  let once := bytes_of (cleanupLog fmt_g json_Unmarshal logbody v1).1 in
  let twice := bytes_of (cleanupLog fmt_g json_Unmarshal once v2).1 in
  (forallb (fun l => negb (ends_cr l)) (lines_read (NewScanner logbody)) = true ->
   twice = once)
  /\ (forallb fits (lines_read (NewScanner logbody)) = true ->
      twice = unlines (map dropCR (lines_read (NewScanner logbody)))).
Proof.
  intros H0 H1 H2 H0' H1' H2' once twice. subst once twice.
  rewrite (cleanupLog_raw logbody v1) by done. cbn [fst].
  change (bytes_of (map echo (lines_read (NewScanner logbody))))
    with (unlines (lines_read (NewScanner logbody))).
  rewrite cleanupLog_raw by done. cbn [fst].
  change (bytes_of (map echo ?x)) with (unlines x).
  split.
  - intros Hc. by rewrite lines_read_stable.
  - intros Hf. rewrite lines_read_unlines; [done|apply lines_read_no_lf|done].
Qed.

(** ** The emitters and the only-failed policy *)

Lemma rows_app (fm : bool) (lt : Z) (es1 es2 : list (Z * string)) :
  rows fm lt (es1 ++ es2)
  = rows fm lt es1 ++ rows (rows_first fm es1) (rows_time lt es1) es2.
Proof.
  revert fm lt. induction es1 as [|[t txt] es1 IH]; intros fm lt.
  - reflexivity.
  - cbn [app rows]. rewrite IH. rewrite <- app_assoc. simpl.
    do 3 f_equal. by destruct es1.
Qed.

Lemma emitMassaged_spec (ll : logline) (txt : string) (st : state) :
  emitMassaged ll txt st
  = mkState (stack st) (time ll) (first st) false (afterDwz st)
      (afterMakeTest st) (cached st) (emitted st)
      (out st ++ rows (firstMassaged st) (lastTime st) [(time ll, txt)]).
Proof.
  destruct st as [stk lt f fm ad am c e o]. unfold emitMassaged. simpl.
  destruct fm; simpl; unfold print, set_lastTime; simpl.
  - by rewrite <- app_assoc.
  - reflexivity.
Qed.

(** [dumpCached]'s loop: the buffered output fragments become rows, each at
    the time of its own record. *)
Lemma dump_spec (cs : list logline) (st : state) :
  foldl dump_one st cs
  = mkState (stack st) (rows_time (lastTime st) (buffered_output cs))
      (first st) (rows_first (firstMassaged st) (buffered_output cs))
      (afterDwz st) (afterMakeTest st) (cached st) (emitted st)
      (out st ++ rows (firstMassaged st) (lastTime st) (buffered_output cs)).
Proof.
  revert st. induction cs as [|c cs IH]; intros st.
  - destruct st. simpl. by rewrite app_nil_r.
  - cbn [foldl buffered_output]. rewrite IH. unfold dump_one.
    destruct (testEvent_ c) as [e|]; [|reflexivity].
    destruct (String.eqb (Action e) "output"); [|reflexivity].
    rewrite emitMassaged_spec. cbn -[rows rows_first rows_time].
    f_equal.
    + by destruct (buffered_output cs).
    + rewrite <- app_assoc. f_equal.
      change ((time c, Output e) :: buffered_output cs)
        with ([(time c, Output e)] ++ buffered_output cs).
      by rewrite rows_app.
Qed.

(** A text that starts with ['{'] starts with none of the markers. *)
Lemma brace_prefix (t p : string) (c : ascii) (p' : string) :
  HasPrefix t "{" = true -> p = String c p' -> c <> "{"%char ->
  HasPrefix t p = false.
Proof.
  intros Ht -> Hc. destruct t as [|x t]; [done|].
  cbn [HasPrefix] in *. rewrite andb_true_r in Ht.
  apply Ascii.eqb_eq in Ht as ->.
  apply andb_false_iff. left. apply Ascii.eqb_neq. congruence.
Qed.

(** In the silent policy a record with a decoded event goes through the
    only-failed block and through no other display rule. *)
Lemma process_event_silent (ll : logline) (te : testEvent) (st : state) :
  buildStep_of (stack st) = true ->
  HasPrefix (text ll) "{" = true ->
  json_Unmarshal (text ll) = Some te ->
  Action te <> "" ->
  process fmt_g json_Unmarshal (mode_of verboseNothing) ll st
  = onlyFailed fmt_g (set_testEvent (Some te) ll) te
      (set_emitted false (update_first ll st)).
Proof.
  intros Hbs Hbrace Hjson Hact. unfold process. rewrite Hbs.
  assert (decode_event json_Unmarshal true ll = set_testEvent (Some te) ll)
    as ->.
  { unfold decode_event. destruct (text ll) as [|c t] eqn:Ht; [done|].
    cbn [HasPrefix] in Hbrace. rewrite andb_true_r in Hbrace. rewrite Hbrace.
    rewrite Hjson. apply String.eqb_neq in Hact. by rewrite Hact. }
  assert (update_flags true (set_testEvent (Some te) ll) st = st) as ->.
  { unfold update_flags. cbn [text set_testEvent].
    rewrite (brace_prefix (text ll) "+ dwz --version" "+" _ Hbrace eq_refl)
      by done.
    rewrite (brace_prefix (text ll) "+ make test" "+" _ Hbrace eq_refl)
      by done.
    rewrite (brace_prefix (text ll) "Finding latest patch" "F" _ Hbrace eq_refl)
      by done.
    by rewrite !andb_false_r. }
  unfold display, rule_root, rule_step1, rule_step2, rule_testOutput, rule_go,
    rule_outputActions, rule_fail, rule_onlyFailed, shouldShow.
  has_compute. cbn [testEvent_ set_testEvent text andb negb orb].
  rewrite (brace_prefix (text ll) "Go " "G" _ Hbrace eq_refl) by done.
  rewrite bool_decide_true by done.
  cbn [andb negb orb]. rewrite !andb_false_r. cbn [andb negb orb].
  reflexivity.
Qed.

(** The only-failed block on a package-level event, on the output and the
    buffer. *)
Lemma onlyFailed_package (ll : logline) (te : testEvent) (st : state) :
  Test te = "" ->
  out (onlyFailed fmt_g ll te st)
  = out st ++ rows (firstMassaged st) (lastTime st)
                (spec_package_emits fmt_g (cached st ++ [ll]) (time ll) te)
  /\ cached (onlyFailed fmt_g ll te st)
     = spec_package_buffer (cached st ++ [ll]) te.
Proof.
  intros Ht. unfold onlyFailed, spec_package_emits, spec_package_buffer.
  rewrite Ht. cbn [String.eqb].
  destruct (String.eqb (Action te) "pass") eqn:Hpass.
  { apply String.eqb_eq in Hpass. rewrite Hpass. cbn [String.eqb Ascii.eqb Bool.eqb andb].
    rewrite emitMassaged_spec. by destruct st. }
  destruct (String.eqb (Action te) "skip") eqn:Hskip.
  { apply String.eqb_eq in Hskip. rewrite Hskip.
    rewrite emitMassaged_spec. by destruct st. }
  destruct (String.eqb (Action te) "output") eqn:Hout.
  { destruct st. simpl. by rewrite app_nil_r. }
  destruct (String.eqb (Action te) "fail") eqn:Hfail.
  { unfold dumpCached. rewrite emitMassaged_spec, dump_spec.
    destruct st as [stk lt f fm ad am c e o]. cbn -[rows buffered_output].
    split; [|reflexivity]. rewrite rows_app, app_assoc. reflexivity. }
  rewrite emitMassaged_spec. by destruct st.
Qed.

(** The only-failed block on the event of one test case. *)
Lemma onlyFailed_test (ll : logline) (te : testEvent) (st : state) :
  Test te <> "" ->
  out (onlyFailed fmt_g ll te st)
  = out st ++ rows (firstMassaged st) (lastTime st)
                (spec_test_emits (cached st ++ [ll]) te)
  /\ cached (onlyFailed fmt_g ll te st)
     = spec_test_buffer (cached st ++ [ll]) te.
Proof.
  intros Ht. unfold onlyFailed, spec_test_emits, spec_test_buffer.
  apply String.eqb_neq in Ht. rewrite Ht.
  destruct (String.eqb (Action te) "pass").
  { destruct st. simpl. by rewrite app_nil_r. }
  destruct (String.eqb (Action te) "fail").
  { unfold dumpCached. rewrite dump_spec. by destruct st. }
  destruct st. simpl. by rewrite app_nil_r.
Qed.

(** A package-level "output" event only joins the buffer. *)
Lemma process_output_silent (ll : logline) (te : testEvent) (st : state) :
  buildStep_of (stack st) = true ->
  HasPrefix (text ll) "{" = true ->
  json_Unmarshal (text ll) = Some te ->
  Action te = "output" -> Test te = "" ->
  process fmt_g json_Unmarshal (mode_of verboseNothing) ll st
  = set_cached (cached st ++ [set_testEvent (Some te) ll])
      (set_emitted false (update_first ll st)).
Proof.
  intros Hbs Hbrace Hjson Hact Ht.
  assert (Action te <> "") as Hne by (rewrite Hact; discriminate).
  rewrite (process_event_silent ll te st) by done.
  unfold onlyFailed. rewrite Ht, Hact.
  by destruct st as [stk lt [] fm ad am c e o].
Qed.

Lemma update_first_out (ll : logline) (st : state) :
  out (update_first ll st) = out st
  /\ cached (update_first ll st) = cached st
  /\ stack (update_first ll st) = stack st
  /\ firstMassaged (update_first ll st) = firstMassaged st
  /\ first (update_first ll st) = false
  /\ lastTime (update_first ll st) = (if first st then time ll else lastTime st).
Proof. destruct st as [stk lt [] fm ad am c e o]; by cbn. Qed.

(** C1.  Only-failed aggregation (silent policy), package-level events.
    The record of a decoded event is appended to the pending buffer, then:
    "pass" emits [package TAB elapsed "s"] and clears the buffer, "skip"
    emits [package TAB "[no test files]"] and clears, "output" emits nothing
    and stays buffered, "fail" emits the output fragment of every buffered
    "output" event in buffer order, each at the time of its own record, then
    [package TAB "FAIL"], and clears, any other action emits
    [package TAB action] and clears; no other display rule prints anything
    for the record.  (The event of one test case is appended to the buffer
    as well before it is dispatched: "pass" drops the buffer, "fail"
    flushes it, anything else stays buffered.)  In particular an output
    event "x" followed by a fail
    event of package "A" emits exactly the rows "x" and "A TAB FAIL", and
    followed instead by a pass event with elapsed time 1.5 it emits exactly
    the row "A TAB 1.5s". *)
Theorem C1_only_failed_package :
  (forall (ll : logline) (te : testEvent) (st : state),
     buildStep_of (stack st) = true ->
     HasPrefix (text ll) "{" = true ->
     json_Unmarshal (text ll) = Some te ->
     Action te <> "" ->
     Test te = "" ->
     let st' := process fmt_g json_Unmarshal (mode_of verboseNothing) ll st in
     let pending := cached st ++ [set_testEvent (Some te) ll] in
     let lt := if first st then time ll else lastTime st in
     out st' = out st ++ rows (firstMassaged st) lt
                           (spec_package_emits fmt_g pending (time ll) te)
     /\ cached st' = spec_package_buffer pending te)
  /\ (forall (ll : logline) (te : testEvent) (st : state),
        buildStep_of (stack st) = true ->
        HasPrefix (text ll) "{" = true ->
        json_Unmarshal (text ll) = Some te ->
        Action te <> "" ->
        Test te <> "" ->
        let st' := process fmt_g json_Unmarshal (mode_of verboseNothing) ll st in
        let pending := cached st ++ [set_testEvent (Some te) ll] in
        let lt := if first st then time ll else lastTime st in
        out st' = out st ++ rows (firstMassaged st) lt
                              (spec_test_emits pending te)
        /\ cached st' = spec_test_buffer pending te)
  /\ (forall (ll1 ll2 : logline) (e1 e2 : testEvent) (st : state),
        buildStep_of (stack st) = true -> cached st = [] ->
        HasPrefix (text ll1) "{" = true -> json_Unmarshal (text ll1) = Some e1 ->
        HasPrefix (text ll2) "{" = true -> json_Unmarshal (text ll2) = Some e2 ->
        Action e1 = "output" -> Test e1 = "" -> Output e1 = "x" ->
        Package e2 = "A" -> Test e2 = "" ->
        let st' :=
          process fmt_g json_Unmarshal (mode_of verboseNothing) ll2
            (process fmt_g json_Unmarshal (mode_of verboseNothing) ll1 st) in
        let lt := if first st then time ll1 else lastTime st in
        (Action e2 = "fail" ->
           out st' = out st ++ rows (firstMassaged st) lt
                       [(time ll1, "x"); (time ll2, "A" +:+ TAB +:+ "FAIL")]
           /\ cached st' = [])
        /\ (Action e2 = "pass" -> fmt_g (Elapsed e2) = "1.5" ->
            out st' = out st ++ rows (firstMassaged st) lt
                        [(time ll2, "A" +:+ TAB +:+ "1.5s")]
            /\ cached st' = [])).
Proof.
  split; [|split].
  - intros ll te st Hbs Hbrace Hjson Hact Ht st' pending lt.
    subst st' pending lt.
    rewrite (process_event_silent ll te st) by done.
    destruct (update_first_out ll st) as (Ho & Hc & _ & Hfm & _ & Hlt).
    destruct (onlyFailed_package (set_testEvent (Some te) ll) te
                (set_emitted false (update_first ll st)) Ht) as [H1 H2].
    rewrite H1, H2. cbn [out cached firstMassaged lastTime set_emitted].
    by rewrite Ho, Hc, Hfm, Hlt.
  - intros ll te st Hbs Hbrace Hjson Hact Ht st' pending lt.
    subst st' pending lt.
    rewrite (process_event_silent ll te st) by done.
    destruct (update_first_out ll st) as (Ho & Hc & _ & Hfm & _ & Hlt).
    destruct (onlyFailed_test (set_testEvent (Some te) ll) te
                (set_emitted false (update_first ll st)) Ht) as [H1 H2].
    rewrite H1, H2. cbn [out cached firstMassaged lastTime set_emitted].
    by rewrite Ho, Hc, Hfm, Hlt.
  - intros ll1 ll2 e1 e2 st Hbs Hc Hb1 Hj1 Hb2 Hj2 Ha1 Ht1 Ho1 Hp2 Ht2 st' lt.
    subst st' lt.
    rewrite (process_output_silent ll1 e1 st) by done.
    set (st1 := set_cached _ _).
    destruct (update_first_out ll1 st) as (Ho & _ & Hs & Hfm & Hf & Hlt).
    assert (buildStep_of (stack st1) = true) as Hbs1
        by (subst st1; cbn [stack set_cached set_emitted]; by rewrite Hs).
    assert (out st1 = out st /\ firstMassaged st1 = firstMassaged st
            /\ first st1 = false
            /\ lastTime st1 = (if first st then time ll1 else lastTime st)
            /\ cached st1 = [set_testEvent (Some e1) ll1])
      as (Ho1' & Hfm1 & Hf1 & Hlt1 & Hc1).
    { subst st1. cbn [out firstMassaged first lastTime cached set_cached
                        set_emitted]. by rewrite Hc. }
    split.
    + intros Ha2.
      assert (Action e2 <> "") as Hne by (rewrite Ha2; discriminate).
      rewrite (process_event_silent ll2 e2 st1) by done.
      destruct (update_first_out ll2 st1) as (Ho2 & Hc2 & _ & Hfm2 & _ & Hlt2).
      destruct (onlyFailed_package (set_testEvent (Some e2) ll2) e2
                  (set_emitted false (update_first ll2 st1)) Ht2) as [H1 H2].
      rewrite H1, H2. cbn [out cached firstMassaged lastTime set_emitted].
      rewrite Ho2, Hc2, Hfm2, Hlt2, Hf1, Ho1', Hfm1, Hlt1, Hc1.
      unfold spec_package_emits, spec_package_buffer.
      rewrite Ha2, Hp2. cbn [String.eqb Ascii.eqb Bool.eqb andb app].
      cbn [buffered_output testEvent_ set_testEvent time].
      rewrite Ha1, Ha2, Ho1. by cbn.
    + intros Ha2 Hg.
      assert (Action e2 <> "") as Hne by (rewrite Ha2; discriminate).
      rewrite (process_event_silent ll2 e2 st1) by done.
      destruct (update_first_out ll2 st1) as (Ho2 & Hc2 & _ & Hfm2 & _ & Hlt2).
      destruct (onlyFailed_package (set_testEvent (Some e2) ll2) e2
                  (set_emitted false (update_first ll2 st1)) Ht2) as [H1 H2].
      rewrite H1, H2. cbn [out cached firstMassaged lastTime set_emitted].
      rewrite Ho2, Hc2, Hfm2, Hlt2, Hf1, Ho1', Hfm1, Hlt1, Hc1.
      unfold spec_package_emits, spec_package_buffer.
      rewrite Ha2, Hp2, Hg. by cbn.
Qed.

Lemma update_flags_fields (bs : bool) (ll : logline) (st : state) :
  out (update_flags bs ll st) = out st
  /\ stack (update_flags bs ll st) = stack st
  /\ cached (update_flags bs ll st) = cached st
  /\ first (update_flags bs ll st) = first st
  /\ firstMassaged (update_flags bs ll st) = firstMassaged st
  /\ lastTime (update_flags bs ll st) = lastTime st.
Proof.
  unfold update_flags.
  repeat match goal with |- context [if ?b then _ else _] => destruct b end;
    by destruct st.
Qed.

(** ** The buffer holds records with events only *)

Lemma emitMassaged_cached (ll : logline) (txt : string) (st : state) :
  cached (emitMassaged ll txt st) = cached st.
Proof. by rewrite emitMassaged_spec. Qed.

Lemma emitText_cached (ll : logline) (st : state) :
  cached (emitText ll st) = cached st.
Proof.
  unfold emitText. destruct (emitted st); [done|].
  by rewrite emitMassaged_cached.
Qed.

Lemma emitRaw_cached (ll : logline) (st : state) :
  cached (emitRaw ll st) = cached st.
Proof. unfold emitRaw. by destruct (emitted st). Qed.

Lemma onlyFailed_cached (ll : logline) (te : testEvent) (st : state) :
  cached (onlyFailed fmt_g ll te st) = []
  \/ cached (onlyFailed fmt_g ll te st) = cached st ++ [ll].
Proof.
  unfold onlyFailed, dumpCached.
  repeat match goal with |- context [if ?b then _ else _] => destruct b end;
    auto.
Qed.

Lemma display_cached (mode : Z) (bs : bool) (ll : logline) (st : state) :
  cached (display fmt_g mode bs ll st) = cached st
  \/ cached (display fmt_g mode bs ll st) = []
  \/ (testEvent_ ll <> None
      /\ cached (display fmt_g mode bs ll st) = cached st ++ [ll]).
Proof.
  unfold display.
  set (st0 := set_emitted false st).
  set (st1 := rule_root mode ll st0).
  set (st2 := rule_step1 mode ll st1).
  set (st3 := rule_step2 mode ll st2).
  set (st4 := rule_testOutput mode ll st3).
  set (st5 := rule_go mode bs ll st4).
  set (st6 := rule_outputActions mode ll st5).
  set (st7 := rule_fail mode ll st6).
  assert (cached st1 = cached st) as H1.
  { subst st1. unfold rule_root, emitTextOrRaw.
    repeat match goal with |- context [if ?b then _ else _] => destruct b end;
      by rewrite ?emitText_cached, ?emitRaw_cached. }
  assert (cached st2 = cached st) as H2.
  { subst st2. unfold rule_step1, emitTextOrRaw.
    repeat match goal with |- context [if ?b then _ else _] => destruct b end;
      by rewrite ?emitText_cached, ?emitRaw_cached. }
  assert (cached st3 = cached st) as H3.
  { subst st3. unfold rule_step2.
    repeat match goal with |- context [if ?b then _ else _] => destruct b end;
      by rewrite ?emitText_cached, ?emitRaw_cached. }
  assert (cached st4 = cached st) as H4.
  { subst st4. unfold rule_testOutput.
    repeat match goal with |- context [if ?b then _ else _] => destruct b end;
      by rewrite ?emitMassaged_cached. }
  assert (cached st5 = cached st) as H5.
  { subst st5. unfold rule_go.
    repeat match goal with |- context [if ?b then _ else _] => destruct b end;
      by rewrite ?emitText_cached. }
  assert (cached st6 = cached st) as H6.
  { subst st6. unfold rule_outputActions. destruct (testEvent_ ll); [|done].
    repeat match goal with |- context [if ?b then _ else _] => destruct b end;
      by rewrite ?emitMassaged_cached. }
  assert (cached st7 = cached st) as H7.
  { subst st7. unfold rule_fail. destruct (testEvent_ ll); [|done].
    repeat match goal with |- context [if ?b then _ else _] => destruct b end;
      by rewrite ?emitMassaged_cached. }
  unfold rule_onlyFailed. destruct (testEvent_ ll) as [te|] eqn:Hev; [|by left].
  destruct (has mode modeShowOnlyFailed); [|by left].
  destruct (onlyFailed_cached ll te st7) as [H|H]; rewrite H; [by right; left|].
  right; right. by rewrite H7.
Qed.

Lemma process_all_events (mode : Z) (ll : logline) (st : state) :
  all_events (cached st) ->
  all_events (cached (process fmt_g json_Unmarshal mode ll st)).
Proof.
  intros Hall. unfold process.
  set (bs := buildStep_of (stack st)). set (ll' := decode_event _ bs ll).
  destruct (update_flags_fields bs ll' st) as (_ & _ & Hc & _).
  destruct (update_first_out ll' (update_flags bs ll' st)) as (_ & Hc' & _).
  destruct (display_cached mode bs ll' (update_first ll' (update_flags bs ll' st)))
    as [H|[H|[Hev H]]]; rewrite H, ?Hc', ?Hc.
  - done.
  - constructor.
  - apply Forall_app. split; [done|]. by constructor.
Qed.

(** X20.  [cached_events]: along the whole scan every buffered record
    carries an event, so [dumpCached] never meets a record without one. *)
Lemma cached_events (mode : Z) (lines : list string) (st : state) :
  all_events (cached st) ->
  all_events (cached (scan fmt_g json_Unmarshal mode st lines).1).
Proof.
  remember (length lines) as n eqn:Hn.
  revert lines st Hn. induction (lt_wf n) as [n _ IH].
  intros lines st -> Hall. destruct lines as [|l rest]; [done|].
  cbn [scan].
  destruct (has mode modeRawText).
  { apply (IH (length rest)); [simpl; lia | done | by destruct st]. }
  destruct (HasSuffix l " tests processed.").
  { destruct (has mode modeShowHeader); by destruct st. }
  destruct (HasPrefix l "Current time: "); [by destruct st|].
  destruct (logparse l) as [[ll|]|p]; [| |done].
  - destruct (treeize (stack st) ll) as [stk|p]; [|done].
    destruct (topOfStackIs stk "Test Output").
    + destruct rest as [|l2 rest2]; [by destruct st|].
      apply (IH (length rest2)); [simpl; lia | done |].
      apply process_all_events. by destruct st.
    + apply (IH (length rest)); [simpl; lia | done |].
      apply process_all_events. by destruct st.
  - apply (IH (length rest)); [simpl; lia | done | done].
Qed.

(** ** The display rules *)

(** [decode_event] returns the record itself or the record with an
    event. *)
Lemma decode_event_None (bs : bool) (ll : logline) :
  testEvent_ (decode_event json_Unmarshal bs ll) = None ->
  decode_event json_Unmarshal bs ll = ll.
Proof.
  unfold decode_event. destruct bs; [|done].
  destruct (text ll) as [|c t]; [done|].
  destruct (Ascii.eqb c "{"); [|done].
  destruct (json_Unmarshal (String c t)) as [te|]; [|done].
  destruct (negb (String.eqb (Action te) "")); [|done]. discriminate.
Qed.

Lemma latch_emitText (ll : logline) (st0 st : state) :
  latch_inv ll st0 st -> latch_inv ll st0 (emitText ll st).
Proof.
  intros [Hs H]. unfold emitText.
  destruct H as [(He & Ho & Hfm & Hlt)|(He & H)]; rewrite He.
  - rewrite emitMassaged_spec. split; [done|]. right. split; [done|]. right.
    cbn [out set_emitted firstMassaged lastTime]. by rewrite Ho, Hfm, Hlt.
  - split; [done|]. by right.
Qed.

Lemma latch_emitRaw (ll : logline) (st0 st : state) :
  latch_inv ll st0 st -> latch_inv ll st0 (emitRaw ll st).
Proof.
  intros [Hs H]. unfold emitRaw.
  destruct H as [(He & Ho & Hfm & Hlt)|(He & H)]; rewrite He.
  - split; [done|]. right. split; [done|]. left.
    cbn [out print set_emitted]. by rewrite Ho.
  - split; [done|]. by right.
Qed.

Lemma latch_rules (mode : Z) (bs : bool) (ll : logline) (st0 st : state) :
  testEvent_ ll = None ->
  topOfStackIs (stack st0) "Test Output" = false ->
  latch_inv ll st0 st ->
  latch_inv ll st0 (rule_root mode ll st)
  /\ latch_inv ll st0 (rule_step1 mode ll st)
  /\ latch_inv ll st0 (rule_step2 mode ll st)
  /\ latch_inv ll st0 (rule_testOutput mode ll st)
  /\ latch_inv ll st0 (rule_go mode bs ll st)
  /\ latch_inv ll st0 (rule_outputActions mode ll st)
  /\ latch_inv ll st0 (rule_fail mode ll st)
  /\ latch_inv ll st0 (rule_onlyFailed fmt_g mode ll st).
Proof.
  intros Hev Htop Hinv.
  pose proof (latch_emitText ll st0 st Hinv) as HT.
  pose proof (latch_emitRaw ll st0 st Hinv) as HR.
  unfold rule_root, rule_step1, rule_step2, rule_testOutput, rule_go,
    rule_outputActions, rule_fail, rule_onlyFailed, emitTextOrRaw.
  rewrite Hev. assert (stack st = stack st0) as Hs by apply Hinv.
  rewrite Hs, Htop, andb_false_r.
  split; [|split; [|split; [|split; [|split; [|split; [|split]]]]]];
    repeat match goal with |- context [if ?b then _ else _] => destruct b end;
    assumption.
Qed.

(** C3 (as amended).  For every record without a decoded event whose
    innermost slot is not "Test Output", in every mode, the display rules
    emit the record at most once, even when several of them match: the
    output grows by nothing, by the raw line, or by one massaged row of the
    record's text.  (The rules that print the auxiliary line, the output
    fragment of an event, or a FAIL or summary row do not go through the
    latch.) *)
Theorem C3_emitted_once (mode : Z) (ll : logline) (st : state) :
  testEvent_ (decode_event json_Unmarshal (buildStep_of (stack st)) ll) = None ->
  topOfStackIs (stack st) "Test Output" = false ->
  let st' := process fmt_g json_Unmarshal mode ll st in
  let lt := if first st then time ll else lastTime st in
  out st' = out st
  \/ out st' = out st ++ [echo (raw ll)]
  \/ out st' = out st ++ rows (firstMassaged st) lt [(time ll, text ll)].
Proof.
  intros Hev Htop st' lt. subst st' lt. unfold process.
  apply decode_event_None in Hev as Hll. rewrite Hll in *.
  set (bs := buildStep_of (stack st)).
  destruct (update_flags_fields bs ll st) as (Ho & Hs & _ & Hf & Hfm & Hlt).
  destruct (update_first_out ll (update_flags bs ll st))
    as (Ho' & _ & Hs' & Hfm' & _ & Hlt').
  set (st1 := update_first ll (update_flags bs ll st)) in *.
  set (st0 := set_emitted false st1).
  assert (latch_inv ll st0 st0) as H0.
  { split; [done|]. left. by subst st0. }
  assert (topOfStackIs (stack st0) "Test Output" = false) as Htop0.
  { subst st0. cbn [stack set_emitted]. by rewrite Hs', Hs. }
  unfold display. fold st0.
  pose proof (proj1 (latch_rules mode bs ll st0 _ Hev Htop0 H0)) as H1.
  pose proof (proj1 (proj2 (latch_rules mode bs ll st0 _ Hev Htop0 H1))) as H2.
  pose proof (proj1 (proj2 (proj2
                (latch_rules mode bs ll st0 _ Hev Htop0 H2)))) as H3.
  pose proof (proj1 (proj2 (proj2 (proj2
                (latch_rules mode bs ll st0 _ Hev Htop0 H3))))) as H4.
  pose proof (proj1 (proj2 (proj2 (proj2 (proj2
                (latch_rules mode bs ll st0 _ Hev Htop0 H4)))))) as H5.
  pose proof (proj1 (proj2 (proj2 (proj2 (proj2 (proj2
                (latch_rules mode bs ll st0 _ Hev Htop0 H5))))))) as H6.
  pose proof (proj1 (proj2 (proj2 (proj2 (proj2 (proj2 (proj2
                (latch_rules mode bs ll st0 _ Hev Htop0 H6)))))))) as H7.
  pose proof (proj2 (proj2 (proj2 (proj2 (proj2 (proj2 (proj2
                (latch_rules mode bs ll st0 _ Hev Htop0 H7)))))))) as H8.
  destruct H8 as [_ H8].
  assert (out st0 = out st /\ firstMassaged st0 = firstMassaged st
          /\ lastTime st0 = (if first st then time ll else lastTime st))
    as (E1 & E2 & E3).
  { subst st0. cbn [out firstMassaged lastTime set_emitted].
    by rewrite Ho', Hfm', Hlt', Ho, Hfm, Hf, Hlt. }
  rewrite E1, E2, E3 in H8.
  destruct H8 as [(_ & H & _)|(_ & [H|H])]; auto.
Qed.

(** ** Noise lines *)

Lemma logparse_noise (line : string) :
  line <> "" -> HasPrefix line "[" = false ->
  logparse (float64:=float64) line = Ok None.
Proof.
  intros Hne Hp. destruct line as [|c line]; [done|].
  cbn [HasPrefix] in Hp. rewrite andb_true_r in Hp.
  unfold logparse. by rewrite Hp.
Qed.

(** C5 (as amended).  A non-empty line that does not start with ['['] makes
    [logparse] return nil; when the main loop of a non-raw mode reads it as
    the line of a turn and it is not one of the two end-of-log lines, the
    turn does nothing: no panic, no output, the stack, the flags and the
    rest of the state as before, and the scan goes on with the next
    line. *)
Theorem C5_noise_skipped (line : string) (mode : Z) (st : state)
    (rest : list string) :
  line <> "" ->
  HasPrefix line "[" = false ->
  has mode modeRawText = false ->
  HasSuffix line " tests processed." = false ->
  HasPrefix line "Current time: " = false ->
  logparse (float64:=float64) line = Ok None
  /\ scan fmt_g json_Unmarshal mode st (line :: rest)
     = scan fmt_g json_Unmarshal mode st rest.
Proof.
  intros Hne Hp Hraw Hs Hc. split; [by apply logparse_noise|].
  cbn [scan]. by rewrite Hraw, Hs, Hc, logparse_noise.
Qed.

(** ** Before the "make test" marker *)


End Properties.

(** * The primary-build-step tag "Step 1/1" *)

(** C2 (the code at the failing inputs).  In the verbose policy the record
    of the "+ dwz --version" marker is shown when the innermost slot of its
    path is "Step 2/2" and is not shown when it is "Step 1/1"; the same
    holds in the silent policy for the "+ make test" marker: the test of the
    innermost slot under [modeShowStep2Top] knows "Step 2/2" only. *)
Theorem C2_step_1_1_top_not_shown {float64 : Type} (fmt_g : float64 -> string)
    (json_Unmarshal : string -> option (testEvent float64)) :
  let log tag marker :=
    unlines [""; log_line "10:00:00" 1 (" [" +:+ tag +:+ "] " +:+ marker)] in
  cleanupLog fmt_g json_Unmarshal (log "Step 2/2" "+ dwz --version") 1
  = ([LF; massaged_header; row "    " "+ dwz --version"], None)
  /\ cleanupLog fmt_g json_Unmarshal (log "Step 1/1" "+ dwz --version") 1
     = ([LF], None)
  /\ cleanupLog fmt_g json_Unmarshal (log "Step 2/2" "+ make test") 0
     = ([LF; massaged_header; row "    " "+ make test"], None)
  /\ cleanupLog fmt_g json_Unmarshal (log "Step 1/1" "+ make test") 0
     = ([LF], None).
Proof. repeat split; vm_compute; reflexivity. Qed.

(** * Counterexamples *)

(** C3 fails as stated: at verbosity 2 one record can be emitted by two
    rules.  The record "case 1" (path "Step 1/2", "Test Output") is printed
    by the "Step 1/2" rule and its auxiliary line by the "Test Output" rule;
    the record of a "fail" event (path "Step 1/2", "Step 2/2") is printed
    by the "Step 1/2" rule and then a FAIL row by the rule of failed
    events. *)
Lemma C3_counterexample :
  out (process sample_g sample_json (mode_of 2)
         (set_addtext "captured"
            (record "10:00:01" 2 ["Test Output"] " [Test Output] case 1" "case 1"))
         (state_at ["Step 1/2"; "Test Output"]))
  = [LF; massaged_header; row "    " "case 1"; row "    " "captured"]
  /\ out (process sample_g sample_json (mode_of 2)
            (record "10:00:01" 2 ["Step 2/2"] (" [Step 2/2] " +:+ json_fail) json_fail)
            (state_at ["Step 1/2"; "Step 2/2"]))
     = [LF; massaged_header; row "    " json_fail; row "    " ("FAIL" +:+ TAB +:+ "A")]
  /\ cleanupLog sample_g sample_json
       (unlines [""; log_line "10:00:00" 1 " [Step 1/2] unit tests";
                 log_line "10:00:01" 2 " [Test Output] case 1"; "captured"]) 2
     = ([LF; massaged_header; row "    " "unit tests"; row "   1" "case 1";
         row "    " "captured"], None).
Proof. repeat split; vm_compute; reflexivity. Qed.

(** C4 fails as stated: the output is not the input byte for byte when a
    line ends with a carriage return and a newline (the carriage return is
    dropped), nor when the last line has no newline (one is added). *)
Lemma C4_counterexample :
  let crlf := CR +:+ LF in
  let input := "TeamCity build log" +:+ crlf +:+ crlf
               +:+ log_line "10:00:00" 0 "text" +:+ crlf in
  bytes_of (cleanupLog sample_g sample_json input 3).1
  = unlines ["TeamCity build log"; ""; log_line "10:00:00" 0 "text"]
  /\ bytes_of (cleanupLog sample_g sample_json input 3).1 <> input
  /\ bytes_of (cleanupLog sample_g sample_json "no newline" 3).1
     <> "no newline".
Proof. repeat split; vm_compute; (reflexivity || discriminate). Qed.

(** C5 fails as stated: on the empty line [logparse] panics instead of
    returning nil, and the run of [cleanupLog] ends there; the
    "Current time: " line does not start with ['['] and is printed in every
    mode; at verbosity 2 the line after a "Test Output" record is printed
    whatever it starts with. *)
Lemma C5_counterexample :
  logparse (float64:=string) "" = Panic (ExpectingByte "" "[")
  /\ cleanupLog sample_g sample_json (unlines [""; ""]) 0
     = ([LF], Some (ExpectingByte "" "["))
  /\ cleanupLog sample_g sample_json (unlines [""; "Current time: Tue"]) 0
     = ([LF; echo "Current time: Tue"], None)
  /\ cleanupLog sample_g sample_json
       (unlines [""; log_line "10:00:00" 1 " [Test Output] t"; "plain aux"]) 2
     = ([LF; massaged_header; row "    " "plain aux"], None).
Proof. repeat split; vm_compute; reflexivity. Qed.


(** C7 fails as stated: a record of depth 21 has [d >= len(tags)], and
    [treeize] panics on it (the stack has capacity 20), so there is no
    stack after the update; the run of [cleanupLog] ends there. *)
Lemma C7_counterexample :
  let ll := record "10:00:00" 21 [] "deep" "deep" in
  logparse (log_line "10:00:00" 21 "deep") = Ok (Some ll)
  /\ (length (tags ll) <= indent ll)%nat
  /\ treeize make_stack ll = Panic (SliceBounds 21 20)
  /\ cleanupLog sample_g sample_json
       (unlines [""; log_line "10:00:00" 21 "deep"]) 0
     = ([LF], Some (SliceBounds 21 20)).
Proof. repeat split; vm_compute; (reflexivity || lia). Qed.

(** C9 fails as stated: a line that ends with two carriage returns loses
    one in each run. *)
Lemma C9_counterexample :
  let input := "a" +:+ CR +:+ CR +:+ LF in
  let once := bytes_of (cleanupLog sample_g sample_json input 3).1 in
  let twice := bytes_of (cleanupLog sample_g sample_json once 3).1 in
  once = "a" +:+ CR +:+ LF /\ twice = "a" +:+ LF /\ twice <> once.
Proof. repeat split; vm_compute; (reflexivity || discriminate). Qed.

(** * Instances *)

(** C1 at the first sequence of the specification: the records of an
    output event "x" and of a fail event of package "A", three seconds
    later, in the build step. *)
Lemma C1_witness :
  let st := state_at ["Step 2/2"] in
  let ll1 := record "10:00:00" 1 ["Step 2/2"] (" [Step 2/2] " +:+ json_output) json_output in
  let ll2 := record "10:00:03" 1 ["Step 2/2"] (" [Step 2/2] " +:+ json_fail) json_fail in
  let st' := process sample_g sample_json (mode_of verboseNothing) ll2
               (process sample_g sample_json (mode_of verboseNothing) ll1 st) in
  (buildStep_of (stack st) = true /\ cached st = []
   /\ HasPrefix (text ll1) "{" = true /\ sample_json (text ll1) = Some ev_output
   /\ HasPrefix (text ll2) "{" = true /\ sample_json (text ll2) = Some ev_fail)
  /\ (out st' = out st ++ rows (firstMassaged st) (time ll1)
                  [(time ll1, "x"); (time ll2, "A" +:+ TAB +:+ "FAIL")]
      /\ cached st' = [])
  /\ logparse (raw ll1) = Ok (Some ll1)
  /\ logparse (raw ll2) = Ok (Some ll2)
  /\ cleanupLog sample_g sample_json (unlines [""; raw ll1; raw ll2]) 0
     = ([LF; massaged_header; row "    " "x"; row "   3" ("A" +:+ TAB +:+ "FAIL")],
        None).
Proof.
  intros st ll1 ll2 st'.
  split; [repeat split; reflexivity|].
  split; [|repeat split; vm_compute; reflexivity].
  refine (proj1 (proj2 (proj2 (C1_only_failed_package sample_g sample_json))
                   ll1 ll2 ev_output ev_fail st _ _ _ _ _ _ _ _ _ _ _) _);
    reflexivity.
Defined.

(** C3 at a record that two rules match ("Step 1/2" and "Step 2/2" are
    both in its path, verbosity 2). *)
Lemma C3_witness :
  let st := state_at ["Step 1/2"; "Step 2/2"] in
  let ll := record "10:00:01" 2 ["Step 2/2"] " [Step 2/2] hello" "hello" in
  testEvent_ (decode_event sample_json (buildStep_of (stack st)) ll) = None
  /\ topOfStackIs (stack st) "Test Output" = false
  /\ (let st' := process sample_g sample_json (mode_of 2) ll st in
      let lt := if first st then time ll else lastTime st in
      out st' = out st
      \/ out st' = out st ++ [echo (raw ll)]
      \/ out st' = out st ++ rows (firstMassaged st) lt [(time ll, text ll)])
  /\ logparse (raw ll) = Ok (Some ll).
Proof.
  intros st ll. split; [reflexivity|]. split; [reflexivity|].
  split; [|vm_compute; reflexivity].
  apply (C3_emitted_once sample_g sample_json (mode_of 2) ll st); reflexivity.
Defined.

(** C4 at a log of three clean lines. *)
Lemma C4_witness :
  let ls := ["TeamCity build log"; ""; log_line "10:00:00" 0 "text"] in
  3 <> 0 /\ 3 <> 1 /\ 3 <> 2 /\ forallb clean_line ls = true
  /\ cleanupLog sample_g sample_json (unlines ls) 3
     = (map echo (lines_read (NewScanner (unlines ls))), None)
  /\ bytes_of (cleanupLog sample_g sample_json (unlines ls) 3).1 = unlines ls.
Proof.
  intros ls.
  assert (3 <> 0) as H0 by discriminate.
  assert (3 <> 1) as H1 by discriminate.
  assert (3 <> 2) as H2 by discriminate.
  destruct (C4_raw_mode sample_g sample_json (unlines ls) 3 H0 H1 H2) as [Ha Hb].
  split; [exact H0|]. split; [exact H1|]. split; [exact H2|].
  split; [reflexivity|]. split; [exact Ha|].
  apply (Hb ls); reflexivity.
Defined.

(** C5 at the line "noise", read in the silent policy. *)
Lemma C5_witness :
  let st := state_at ["Step 2/2"] in
  let rest := [log_line "10:00:00" 1 " [Step 2/2] hello"] in
  "noise" <> "" /\ HasPrefix "noise" "[" = false
  /\ has (mode_of 0) modeRawText = false
  /\ HasSuffix "noise" " tests processed." = false
  /\ HasPrefix "noise" "Current time: " = false
  /\ logparse (float64:=string) "noise" = Ok None
  /\ scan sample_g sample_json (mode_of 0) st ("noise" :: rest)
     = scan sample_g sample_json (mode_of 0) st rest.
Proof.
  intros st rest.
  assert ("noise" <> "") as Hne by discriminate.
  split; [exact Hne|]. do 4 (split; [reflexivity|]).
  apply (C5_noise_skipped sample_g sample_json "noise" (mode_of 0) st rest Hne);
    reflexivity.
Defined.


(** C7 at a record of depth 5 with two tags, on a stack of three slots. *)
Lemma C7_witness :
  let stk := stack_of ["Step 2/2"; "Test Output"; "old"] in
  let ll := record "10:00:00" 5 ["a"; "b"] " [a] [b] text" "text" in
  scap stk = 20%nat
  /\ (length (tags ll) <= indent ll)%nat
  /\ (indent ll <= 20)%nat
  /\ exists stk',
       treeize stk ll = Ok stk'
       /\ slen stk' = indent ll
       /\ length (elems stk') = indent ll
       /\ drop (indent ll - length (tags ll)) (elems stk') = tags ll
       /\ (forall j, (slen stk <= j < indent ll - length (tags ll))%nat ->
                     elems stk' !! j = Some EmptyString)
       /\ (forall j, (j < slen stk)%nat ->
                     (j < indent ll - length (tags ll))%nat ->
                     elems stk' !! j = elems stk !! j).
Proof.
  intros stk ll.
  assert (length (tags ll) <= indent ll)%nat as Hn by (cbn; lia).
  assert (indent ll <= 20)%nat as Hd by (cbn; lia).
  split; [reflexivity|]. split; [exact Hn|]. split; [exact Hd|].
  exact (C7_treeize_path stk ll eq_refl Hn Hd).
Defined.

(** The stack of that instance, computed: the three old slots below the
    tags are kept, the slots of the tags hold the tags. *)
Example treeize_sample :
  let stk := stack_of ["Step 2/2"; "Test Output"; "old"] in
  let ll := record "10:00:00" 5 ["a"; "b"] " [a] [b] text" "text" in
  logparse (raw ll) = Ok (Some ll)
  /\ elems <$> treeize stk ll
     = Ok ["Step 2/2"; "Test Output"; "old"; "a"; "b"]
  /\ elems <$> treeize (stack_of ["Step 2/2"]) ll
     = Ok ["Step 2/2"; ""; ""; "a"; "b"].
Proof. repeat split; vm_compute; reflexivity. Qed.

(** C8 at the line of 12:34:56 with two tabs. *)
Lemma C8_witness :
  let body := tabs 2 +:+ " [Step 2/2] hello" in
  let line := "[" +:+ "12" +:+ ":" +:+ "34" +:+ ":" +:+ "56" +:+ "]"
              +:+ String "W"%char (":" +:+ body) in
  String.length "12" = 2%nat /\ String.length "34" = 2%nat
  /\ String.length "56" = 2%nat
  /\ exists ll : logline string,
       logparse line = Ok (Some ll)
       /\ raw ll = line
       /\ time ll = Atoi_ "12" * 3600 + Atoi_ "34" * 60 + Atoi_ "56"
       /\ indent ll = leading_tabs body.
Proof.
  intros body line. do 3 (split; [reflexivity|]).
  exact (proj1 (C8_logparse_grammar (float64:=string) "12" "34" "56" "W"%char
                  body eq_refl eq_refl eq_refl)).
Defined.

(** C9 at a log with a carriage return and no final newline. *)
Lemma C9_witness :
  let input := "a" +:+ CR +:+ LF +:+ "b" in
  let once := bytes_of (cleanupLog sample_g sample_json input 3).1 in
  let twice := bytes_of (cleanupLog sample_g sample_json once 4).1 in
  3 <> 0 /\ 3 <> 1 /\ 3 <> 2 /\ 4 <> 0 /\ 4 <> 1 /\ 4 <> 2
  /\ forallb (fun l => negb (ends_cr l)) (lines_read (NewScanner input)) = true
  /\ forallb fits (lines_read (NewScanner input)) = true
  /\ twice = once
  /\ twice = unlines (map dropCR (lines_read (NewScanner input))).
Proof.
  intros input once twice.
  assert (3 <> 0) as H0 by discriminate.
  assert (3 <> 1) as H1 by discriminate.
  assert (3 <> 2) as H2 by discriminate.
  assert (4 <> 0) as H0' by discriminate.
  assert (4 <> 1) as H1' by discriminate.
  assert (4 <> 2) as H2' by discriminate.
  destruct (C9_raw_idempotent sample_g sample_json input 3 4
              H0 H1 H2 H0' H1' H2') as [Ha Hb].
  split; [exact H0|]. split; [exact H1|]. split; [exact H2|].
  split; [exact H0'|]. split; [exact H1'|]. split; [exact H2'|].
  split; [reflexivity|]. split; [reflexivity|].
  split; [apply Ha; reflexivity|apply Hb; reflexivity].
Defined.

(** C10 at a record with two tags at depth 1. *)
Lemma C10_witness :
  let stk := stack_of ["Step 2/2"] in
  let ll := record "10:00:00" 1 ["a"; "b"] " [a] [b] text" "text" in
  scap stk = 20%nat
  /\ match treeize stk ll with
     | Panic p =>
         ((20 < indent ll)%nat /\ p = SliceBounds (indent ll) 20)
         \/ ((indent ll <= 20)%nat /\ (indent ll < length (tags ll))%nat
             /\ p = IndexRange
                      (Z.of_nat (indent ll) - Z.of_nat (length (tags ll)))
                      (indent ll))
     | Ok _ => (length (tags ll) <= indent ll <= 20)%nat
     end
  /\ logparse (raw ll) = Ok (Some ll)
  /\ treeize stk ll = Panic (IndexRange (-1) 1).
Proof.
  intros stk ll. split; [reflexivity|].
  split; [|split; vm_compute; reflexivity].
  exact (C10_treeize_partial stk ll eq_refl).
Defined.

(** * Further properties *)

Section Further.

Context {float64 : Type}.
Context (fmt_g : float64 -> string).
Context (json_Unmarshal : string -> option (testEvent float64)).

#[local] Abbreviation logline := (logline float64).
#[local] Abbreviation state := (state float64).
#[local] Abbreviation testEvent := (testEvent float64).

(** ** More on [logparse] *)

(** What [logparse] returns on a line with the fixed prefix. *)
Lemma logparse_shaped (hh mm ss : string) (flag : ascii) (body : string) :
  String.length hh = 2%nat -> String.length mm = 2%nat ->
  String.length ss = 2%nat ->
  let line := "[" +:+ hh +:+ ":" +:+ mm +:+ ":" +:+ ss +:+ "]"
              +:+ String flag (":" +:+ body) in
  let rest := str_drop (leading_tabs body) body in
  logparse line
  = Ok (Some (mkLogline line
                (Atoi_ hh * 60 * 60 + Atoi_ mm * 60 + Atoi_ ss)
                (leading_tabs body)
                (tags_loop (String.length rest) [] rest).1
                (tags_loop (String.length rest) [] rest).2
                "" (None : option testEvent))).
Proof.
  intros Hh Hm Hs line rest.
  destruct hh as [|h1 [|h2 [|]]]; try discriminate.
  destruct mm as [|m1 [|m2 [|]]]; try discriminate.
  destruct ss as [|s1 [|s2 [|]]]; try discriminate.
  subst line rest. cbv beta iota fix delta [String.append].
  unfold logparse, logparse_body, expectByte, expectLen.
  cbn -[Atoi_ tags_loop skip_tabs Z.mul Z.add].
  rewrite skip_tabs_spec. cbn -[Atoi_ tags_loop Z.mul Z.add].
  by destruct (tags_loop _ _ _).
Qed.

(** A record comes from a line with the fixed prefix only. *)
Lemma logparse_inv (line : string) (ll : logline) :
  logparse line = Ok (Some ll) -> shaped line.
Proof.
  unfold logparse, logparse_body, expectByte, expectLen, shaped.
  destruct line as [|c0 line]; [discriminate|].
  destruct (Ascii.eqb c0 "[") eqn:E0; [|discriminate].
  apply Ascii.eqb_eq in E0 as ->.
  destruct line as [|c1 [|c2 [|c3 line]]]; try discriminate.
  cbn -[Atoi_ tags_loop skip_tabs Z.mul Z.add].
  destruct (Ascii.eqb c3 ":") eqn:E3; [|discriminate].
  apply Ascii.eqb_eq in E3 as ->.
  destruct line as [|c4 [|c5 [|c6 line]]]; try discriminate.
  cbn -[Atoi_ tags_loop skip_tabs Z.mul Z.add].
  destruct (Ascii.eqb c6 ":") eqn:E6; [|discriminate].
  apply Ascii.eqb_eq in E6 as ->.
  destruct line as [|c7 [|c8 [|c9 line]]]; try discriminate.
  cbn -[Atoi_ tags_loop skip_tabs Z.mul Z.add].
  destruct (Ascii.eqb c9 "]") eqn:E9; [|discriminate].
  apply Ascii.eqb_eq in E9 as ->.
  destruct line as [|c10 [|c11 line]]; try discriminate.
  cbn -[Atoi_ tags_loop skip_tabs Z.mul Z.add].
  destruct (Ascii.eqb c11 ":") eqn:E11; [|discriminate].
  apply Ascii.eqb_eq in E11 as ->.
  intros _.
  exists (String c1 (String c2 "")), (String c4 (String c5 "")),
    (String c7 (String c8 "")), c10, line.
  by repeat split.
Qed.

(** After its first test [logparse] returns a record or panics. *)
Lemma logparse_body_not_nil (line : string) :
  logparse_body (float64:=float64) line <> Ok None.
Proof.
  unfold logparse_body.
  repeat match goal with
         | |- context [mbind _ ?m] =>
             destruct m as [[? ?]|]; cbn [mbind result_bind]; [|discriminate]
         end.
  destruct (skip_tabs _ _). by destruct (tags_loop _ _ _).
Qed.

(** X1.  The three outcomes of [logparse]: nil exactly for a non-empty line
    that does not start with ['['], a record (whose raw text is the line)
    exactly for a line with the fixed prefix, and a panic for every other
    line: the empty line and the lines that start with ['['] without the
    fixed prefix. *)
Theorem logparse_outcome (line : string) :
  match logparse (float64:=float64) line with
  | Ok None => line <> "" /\ HasPrefix line "[" = false
  | Ok (Some ll) => shaped line /\ raw ll = line
  | Panic _ => (line = "" \/ HasPrefix line "[" = true) /\ ~ shaped line
  end.
Proof.
  destruct (logparse line) as [[ll|]|p] eqn:H.
  - pose proof (logparse_inv line ll H) as Hs. split; [exact Hs|].
    destruct Hs as (hh & mm & ss & flag & body & Hh & Hm & Hss & ->).
    rewrite (logparse_shaped hh mm ss flag body Hh Hm Hss) in H.
    by injection H as <-.
  - unfold logparse in H. destruct line as [|c line].
    + by apply logparse_body_not_nil in H.
    + destruct (Ascii.eqb c "[") eqn:E; cbn [negb] in H.
      * by apply logparse_body_not_nil in H.
      * split; [done|]. cbn [HasPrefix]. by rewrite E.
  - split.
    + destruct line as [|c line]; [by left|]. right.
      unfold logparse in H. cbn [HasPrefix]. rewrite andb_true_r.
      destruct (Ascii.eqb c "["); [done|discriminate].
    + intros (hh & mm & ss & flag & body & Hh & Hm & Hss & ->).
      rewrite (logparse_shaped hh mm ss flag body Hh Hm Hss) in H.
      discriminate.
Qed.

Lemma find_close_spec (rest tag after : string) :
  find_close rest = Some (tag, after) ->
  rest = tag +:+ "]" +:+ after /\ no_close tag = true.
Proof.
  revert tag after. induction rest as [|c rest IH]; intros tag after; simpl.
  - discriminate.
  - destruct (Ascii.eqb c "]") eqn:E.
    + intros [= <- <-]. apply Ascii.eqb_eq in E as ->. by split.
    + destruct (find_close rest) as [[tag' after']|]; [|discriminate].
      intros [= <- <-]. destruct (IH _ _ eq_refl) as [-> Hn].
      split; [reflexivity|]. simpl. by rewrite E, Hn.
Qed.

Lemma find_close_render (t r : string) :
  no_close t = true -> find_close (t +:+ "]" +:+ r) = Some (t, r).
Proof.
  induction t as [|c t IH]; intros H; [reflexivity|].
  simpl in H. apply andb_true_iff in H as [Hc Ht].
  apply negb_true_iff in Hc. rewrite append_cons. cbn [find_close].
  by rewrite Hc, (IH Ht).
Qed.

Lemma is_suffix_refl (s : string) : is_suffix s s.
Proof. by exists "". Qed.

Lemma is_suffix_trans (a b c : string) :
  is_suffix a b -> is_suffix b c -> is_suffix a c.
Proof.
  intros [p ->] [q ->]. exists (q +:+ p). by rewrite append_assoc.
Qed.

Lemma is_suffix_cons (c : ascii) (s : string) : is_suffix s (String c s).
Proof. by exists (String c ""). Qed.

Lemma consumeMaybe_suffix (b : ascii) (rest : string) :
  is_suffix (consumeMaybe b rest) rest.
Proof.
  destruct rest as [|c rest]; simpl; [apply is_suffix_refl|].
  destruct (Ascii.eqb c b); [apply is_suffix_cons | apply is_suffix_refl].
Qed.

(** The tags loop only adds tags without closing bracket and leaves a
    suffix of what it was given. *)
Lemma tags_loop_inv (fuel : nat) (acc : list string) (rest : string) :
  forallb no_close acc = true ->
  forallb no_close (tags_loop fuel acc rest).1 = true
  /\ is_suffix (tags_loop fuel acc rest).2 rest.
Proof.
  revert acc rest. induction fuel as [|fuel IH]; intros acc rest Hacc.
  - simpl. split; [done|apply consumeMaybe_suffix].
  - simpl. pose proof (consumeMaybe_suffix " " rest) as Hc.
    destruct (consumeMaybe " " rest) as [|c rest'] eqn:Hr; [by split|].
    destruct (Ascii.eqb c "["); [|by split].
    pose proof (is_suffix_trans _ _ _ (is_suffix_cons c rest') Hc) as Hc'.
    destruct (find_close rest') as [[tag after]|] eqn:Hf; [|by split].
    apply find_close_spec in Hf as [Hrest Htag].
    destruct (IH (acc ++ [tag]) after) as [H1 H2].
    { rewrite forallb_app. simpl. by rewrite Hacc, Htag. }
    split; [exact H1|].
    eapply is_suffix_trans; [exact H2|].
    eapply is_suffix_trans; [|exact Hc'].
    exists (tag +:+ "]"). by rewrite append_assoc.
Qed.

Lemma str_drop_suffix (n : nat) (s : string) : is_suffix (str_drop n s) s.
Proof.
  revert s. induction n as [|n IH]; intros s; [apply is_suffix_refl|].
  destruct s as [|c s]; [apply is_suffix_refl|]. simpl.
  eapply is_suffix_trans; [apply IH | apply is_suffix_cons].
Qed.

(** X2.  What every parsed record satisfies: its raw text is the line, its
    text is a suffix of the line, none of its tags contains a closing
    bracket, and it has neither auxiliary text nor event yet. *)
Theorem logparse_record (line : string) (ll : logline) :
  logparse line = Ok (Some ll) ->
  raw ll = line
  /\ is_suffix (text ll) line
  /\ forallb no_close (tags ll) = true
  /\ addtext ll = ""
  /\ testEvent_ ll = None.
Proof.
  intros H.
  destruct (logparse_inv line ll H)
    as (hh & mm & ss & flag & body & Hh & Hm & Hs & ->).
  rewrite (logparse_shaped hh mm ss flag body Hh Hm Hs) in H.
  injection H as <-. cbn [raw text tags addtext testEvent_].
  set (rest := str_drop (leading_tabs body) body).
  destruct (tags_loop_inv (String.length rest) [] rest eq_refl) as [H1 H2].
  repeat split; try done.
  eapply is_suffix_trans; [exact H2|].
  eapply is_suffix_trans; [apply str_drop_suffix|].
  exists ("[" +:+ hh +:+ ":" +:+ mm +:+ ":" +:+ ss +:+ "]"
          +:+ String flag ":").
  by rewrite !append_assoc.
Qed.

Lemma leading_tabs_tabs (d : nat) (r : string) :
  leading_tabs r = O ->
  leading_tabs (tabs d +:+ r) = d /\ str_drop d (tabs d +:+ r) = r.
Proof.
  intros Hr. induction d as [|d [IH1 IH2]]; [by split|].
  change (tabs (S d) +:+ r) with (String byte_tab (tabs d +:+ r)).
  cbn [leading_tabs str_drop]. rewrite Ascii.eqb_refl. by rewrite IH1, IH2.
Qed.

Lemma tags_loop_render (tgs acc : list string) (txt : string) (fuel : nat) :
  forallb no_close tgs = true -> HasPrefix txt "[" = false ->
  (String.length (render_tags tgs +:+ " " +:+ txt) <= fuel)%nat ->
  tags_loop fuel acc (render_tags tgs +:+ " " +:+ txt) = (acc ++ tgs, txt).
Proof.
  intros Hn Ht. revert acc fuel. induction tgs as [|t tgs IH]; intros acc fuel Hf.
  - rewrite app_nil_r. cbn [render_tags] in *. rewrite append_nil in *.
    destruct fuel as [|fuel]; [reflexivity|].
    cbn [tags_loop]. change (consumeMaybe " " (" " +:+ txt)) with txt.
    destruct txt as [|c txt]; [reflexivity|].
    cbn [HasPrefix] in Ht. rewrite andb_true_r in Ht. by rewrite Ht.
  - simpl in Hn. apply andb_true_iff in Hn as [Hnt Hn].
    cbn [render_tags] in *.
    assert ((" [" +:+ t +:+ "]" +:+ render_tags tgs) +:+ " " +:+ txt
            = String " " (String "["
                (t +:+ "]" +:+ (render_tags tgs +:+ " " +:+ txt)))) as E.
    { rewrite !append_assoc. reflexivity. }
    rewrite E in *. destruct fuel as [|fuel]; [simpl in Hf; lia|].
    cbn [tags_loop consumeMaybe]. rewrite Ascii.eqb_refl.
    change (Ascii.eqb "[" "[") with true. cbn iota.
    rewrite (find_close_render t _ Hnt).
    rewrite (IH Hn (acc ++ [t]) fuel).
    + by rewrite <- app_assoc.
    + assert (String.length (t +:+ "]" +:+ render_tags tgs +:+ " " +:+ txt)
              = (String.length t + 1
                 + String.length (render_tags tgs +:+ " " +:+ txt))%nat) as EL.
      { clear. induction t as [|c t IHt]; [reflexivity|].
        rewrite append_cons. simpl. by rewrite IHt. }
      simpl in Hf. rewrite EL in Hf. lia.
Qed.

(** X3.  Round trip: a line written as the time, the flag, [depth] tabs,
    the tags in brackets (none containing a closing bracket), one space and
    a text that does not start with ['['] is parsed back to exactly these
    parts. *)
Theorem logparse_render (hh mm ss : string) (flag : ascii) (depth : nat)
    (tgs : list string) (txt : string) :
  String.length hh = 2%nat -> String.length mm = 2%nat ->
  String.length ss = 2%nat ->
  forallb no_close tgs = true ->
  HasPrefix txt "[" = false ->
  logparse (render_line hh mm ss flag depth tgs txt)
  = Ok (Some (mkLogline (render_line hh mm ss flag depth tgs txt)
                (Atoi_ hh * 3600 + Atoi_ mm * 60 + Atoi_ ss)
                depth tgs txt "" (None : option testEvent))).
Proof.
  intros Hh Hm Hs Hn Ht. unfold render_line.
  rewrite (logparse_shaped hh mm ss flag _ Hh Hm Hs).
  set (r := render_tags tgs +:+ " " +:+ txt).
  assert (leading_tabs r = O) as Hr.
  { subst r. destruct tgs; reflexivity. }
  destruct (leading_tabs_tabs depth r Hr) as [H1 H2].
  rewrite H1, H2. subst r.
  rewrite (tags_loop_render tgs [] txt _ Hn Ht) by lia.
  cbn [fst snd app]. do 3 f_equal. lia.
Qed.

(** ** More on [treeize] *)

Lemma treeize_ok_bounds (stk stk' : slice) (ll : logline) :
  treeize stk ll = Ok stk' ->
  (length (tags ll) <= indent ll <= scap stk)%nat.
Proof.
  intros H.
  destruct (decide (indent ll <= scap stk)%nat) as [Hd|Hd].
  - destruct (decide (length (tags ll) <= indent ll)%nat) as [Hn|Hn]; [lia|].
    rewrite treeize_index_panic in H by lia. discriminate.
  - rewrite treeize_slice_panic in H by lia. discriminate.
Qed.

(** The backing array after [treeize], slot by slot, the slots beyond the
    new length included. *)
Lemma treeize_array (stk : slice) (ll : logline) :
  (length (tags ll) <= indent ll)%nat -> (indent ll <= scap stk)%nat ->
  exists a,
    treeize stk ll = Ok (mkSlice a (indent ll))
    /\ length a = scap stk
    /\ (forall j, (j < length (tags ll))%nat ->
                  a !! (indent ll - length (tags ll) + j)%nat = tags ll !! j)
    /\ (forall j, (slen stk <= j < indent ll - length (tags ll))%nat ->
                  a !! j = Some EmptyString)
    /\ (forall j, (j < slen stk)%nat -> (j < indent ll - length (tags ll))%nat ->
                  a !! j = sarr stk !! j)
    /\ (forall j, (indent ll <= j)%nat -> a !! j = sarr stk !! j).
Proof.
  intros Hn Hd. unfold treeize, reslice.
  replace (indent ll <=? scap stk)%nat with true
    by (symmetry; apply Nat.leb_le; lia).
  simpl.
  destruct (zero_fill_spec (indent ll - slen stk) (slen stk)
              (mkSlice (sarr stk) (indent ll)))
    as (a & Ha & Hlen & Hin & Hout); [simpl; lia|].
  simpl in *. rewrite Ha. simpl.
  destruct (store_tags_spec (length (tags ll)) (tags ll) 0
              (mkSlice a (indent ll)))
    as (b & Hb & Hblen & Hbin & Hbout); [simpl; lia | simpl; lia |].
  simpl in *. rewrite Hb. exists b. unfold scap in *.
  split; [done|]. split; [lia|]. split; [|split; [|split]].
  - intros j Hj.
    replace (indent ll - length (tags ll) + j)%nat
      with (indent ll - length (tags ll) + 0 + j)%nat by lia.
    apply Hbin; lia.
  - intros j Hj. rewrite Hbout by lia. apply Hin; lia.
  - intros j Hj1 Hj2. rewrite Hbout by lia. apply Hout. lia.
  - intros j Hj. rewrite Hbout by lia. apply Hout. lia.
Qed.

(** X4.  The path after [treeize] in closed form, from the path before: the
    old path padded with empty strings up to the depth, cut where the tags
    start, then the tags.  The bytes that the backing array holds beyond the
    length of the stack never show. *)
Theorem treeize_elems (stk : slice) (ll : logline) :
  (slen stk <= scap stk)%nat ->
  (length (tags ll) <= indent ll)%nat ->
  (indent ll <= scap stk)%nat ->
  exists stk',
    treeize stk ll = Ok stk'
    /\ elems stk'
       = take (indent ll - length (tags ll))
           (elems stk ++ replicate (indent ll - slen stk) EmptyString)
         ++ tags ll.
Proof.
  intros Hl Hn Hd.
  destruct (treeize_array stk ll Hn Hd)
    as (a & Ha & Hlen & Htags & Hzero & Hold & _).
  exists (mkSlice a (indent ll)). split; [exact Ha|].
  unfold elems, scap in *. simpl. apply list_eq. intros j.
  assert (length (take (indent ll - length (tags ll))
                    (take (slen stk) (sarr stk)
                     ++ replicate (indent ll - slen stk) EmptyString))
          = (indent ll - length (tags ll))%nat) as Hlt.
  { rewrite length_take, length_app, length_take, length_replicate. lia. }
  destruct (decide (j < indent ll - length (tags ll))%nat) as [Hj|Hj].
  - rewrite lookup_take_lt by lia. rewrite lookup_app_l by lia.
    rewrite lookup_take_lt by lia.
    destruct (decide (j < slen stk)%nat) as [Hjs|Hjs].
    + rewrite lookup_app_l by (rewrite length_take; lia).
      rewrite lookup_take_lt by lia. by apply Hold.
    + rewrite lookup_app_r by (rewrite length_take; lia).
      rewrite length_take. rewrite Hzero by lia. symmetry.
      apply lookup_replicate_2. lia.
  - rewrite lookup_app_r by lia. rewrite Hlt.
    destruct (decide (j < indent ll)%nat) as [Hjd|Hjd].
    + rewrite lookup_take_lt by lia.
      replace j with (indent ll - length (tags ll)
                      + (j - (indent ll - length (tags ll))))%nat at 1 by lia.
      apply Htags. lia.
    + rewrite lookup_take_ge by lia. symmetry. apply lookup_ge_None_2. lia.
Qed.

(** X5.  [treeize] is idempotent: updating the stack again with the same
    record returns the very same stack, backing array included. *)
Theorem treeize_idempotent (stk stk' : slice) (ll : logline) :
  treeize stk ll = Ok stk' -> treeize stk' ll = Ok stk'.
Proof.
  intros H. pose proof (treeize_ok_bounds _ _ _ H) as [Hn Hd].
  destruct (treeize_array stk ll Hn Hd)
    as (a & Ha & Hlen & Htags & Hzero & Hold & Hrest).
  rewrite Ha in H. injection H as <-.
  destruct (treeize_array (mkSlice a (indent ll)) ll Hn)
    as (b & Hb & Hblen & Hbtags & Hbzero & Hbold & Hbrest).
  { unfold scap. simpl. lia. }
  rewrite Hb. do 2 f_equal. unfold scap in *. simpl in *.
  apply list_eq. intros j.
  destruct (decide (j < indent ll - length (tags ll))%nat) as [Hj|Hj].
  - apply Hbold; lia.
  - destruct (decide (j < indent ll)%nat) as [Hjd|Hjd].
    + replace j with (indent ll - length (tags ll)
                      + (j - (indent ll - length (tags ll))))%nat by lia.
      rewrite Hbtags, Htags by lia. reflexivity.
    + apply Hbrest. lia.
Qed.

(** X6.  After [treeize] on a record with tags the innermost slot is the
    last tag of the record, and nothing else, and every tag of the record
    is found in the path. *)
Theorem treeize_top (stk stk' : slice) (ll : logline) :
  treeize stk ll = Ok stk' ->
  tags ll <> [] ->
  (forall t, topOfStackIs stk' t = true <-> last (tags ll) = Some t)
  /\ (forall t, t ∈ tags ll -> stackHas stk' t = true).
Proof.
  intros H Hne. pose proof (treeize_ok_bounds _ _ _ H) as [Hn Hd].
  destruct (treeize_array stk ll Hn Hd)
    as (a & Ha & Hlen & Htags & _).
  rewrite Ha in H. injection H as <-.
  assert (0 < length (tags ll))%nat as Hpos.
  { destruct (tags ll); [done|simpl; lia]. }
  split.
  - intros t. unfold topOfStackIs. simpl.
    replace (0 <? indent ll)%nat with true
      by (symmetry; apply Nat.ltb_lt; lia).
    replace (indent ll - 1)%nat
      with (indent ll - length (tags ll) + (length (tags ll) - 1))%nat by lia.
    rewrite Htags by lia. rewrite last_lookup.
    replace (pred (length (tags ll))) with (length (tags ll) - 1)%nat by lia.
    destruct (tags ll !! (length (tags ll) - 1)%nat) as [x|] eqn:Hx.
    + simpl. rewrite String.eqb_eq. split; [by intros -> | by intros [= ->]].
    + apply lookup_ge_None_1 in Hx. lia.
  - intros t Ht. apply list_elem_of_lookup in Ht as [j Hj].
    pose proof (lookup_lt_Some _ _ _ Hj) as Hjl.
    unfold stackHas, elems. simpl. apply existsb_exists. exists t.
    split; [|apply String.eqb_refl].
    apply list_elem_of_In, list_elem_of_lookup.
    exists (indent ll - length (tags ll) + j)%nat.
    rewrite lookup_take_lt by lia. by rewrite Htags.
Qed.

(** ** What a run keeps *)

Lemma advances_refl (st : state) : advances st st.
Proof. by repeat split. Qed.

Lemma advances_trans (st1 st2 st3 : state) :
  advances st1 st2 -> advances st2 st3 -> advances st1 st3.
Proof.
  intros (H1 & H2 & H3 & H4 & H5) (K1 & K2 & K3 & K4 & K5).
  repeat split; [by etrans | auto..].
Qed.

Lemma emitMassaged_advances (ll : logline) (txt : string) (st : state) :
  advances st (emitMassaged ll txt st)
  /\ stack (emitMassaged ll txt st) = stack st.
Proof.
  rewrite emitMassaged_spec. split; [|done].
  repeat split; try done. simpl. by eexists.
Qed.

Lemma emitText_advances (ll : logline) (st : state) :
  advances st (emitText ll st) /\ stack (emitText ll st) = stack st.
Proof.
  unfold emitText. destruct (emitted st) eqn:He.
  - split; [apply advances_refl|done].
  - destruct (emitMassaged_advances ll (text ll) (set_emitted true st))
      as [H1 H2].
    split; [|by rewrite H2]. eapply advances_trans; [|exact H1].
    by repeat split.
Qed.

Lemma emitRaw_advances (ll : logline) (st : state) :
  advances st (emitRaw ll st) /\ stack (emitRaw ll st) = stack st.
Proof.
  unfold emitRaw. destruct (emitted st).
  - split; [apply advances_refl|done].
  - split; [|done]. repeat split; try done. simpl. by eexists.
Qed.

Lemma dumpCached_advances (st : state) :
  advances st (dumpCached st) /\ stack (dumpCached st) = stack st.
Proof.
  unfold dumpCached. rewrite dump_spec. split; [|done].
  repeat split; try done; simpl.
  - by eexists.
  - intros ->. by destruct (buffered_output (cached st)).
Qed.

Lemma set_cached_advances (c : list logline) (st : state) :
  advances st (set_cached c st) /\ stack (set_cached c st) = stack st.
Proof. split; [by repeat split|done]. Qed.

Ltac adv_step :=
  match goal with
  | |- advances ?st (set_cached ?c ?x) /\ _ =>
      let H := fresh in
      assert (advances st x /\ stack x = stack st) as H;
      [|destruct H as [? ?];
        destruct (set_cached_advances c x) as [? ?];
        split; [by eapply advances_trans|congruence]]
  | |- advances ?st (emitMassaged ?ll ?t ?x) /\ _ =>
      let H := fresh in
      assert (advances st x /\ stack x = stack st) as H;
      [|destruct H as [? ?];
        destruct (emitMassaged_advances ll t x) as [? ?];
        split; [by eapply advances_trans|congruence]]
  | |- advances ?st (dumpCached ?x) /\ _ =>
      let H := fresh in
      assert (advances st x /\ stack x = stack st) as H;
      [|destruct H as [? ?];
        destruct (dumpCached_advances x) as [? ?];
        split; [by eapply advances_trans|congruence]]
  | |- advances ?st ?st /\ _ => split; [apply advances_refl|done]
  end.

Lemma onlyFailed_advances (ll : logline) (te : testEvent) (st : state) :
  advances st (onlyFailed fmt_g ll te st)
  /\ stack (onlyFailed fmt_g ll te st) = stack st.
Proof.
  unfold onlyFailed.
  repeat match goal with |- context [if ?b then _ else _] => destruct b end;
    repeat adv_step.
Qed.

Lemma display_advances (mode : Z) (bs : bool) (ll : logline) (st : state) :
  advances st (display fmt_g mode bs ll st)
  /\ stack (display fmt_g mode bs ll st) = stack st.
Proof.
  unfold display.
  set (st0 := set_emitted false st).
  assert (advances st st0 /\ stack st0 = stack st) as [A0 S0]
      by (split; [by repeat split|done]).
  assert (forall x, advances x (rule_root mode ll x)
                    /\ stack (rule_root mode ll x) = stack x) as R1.
  { intros x. unfold rule_root, emitTextOrRaw.
    repeat match goal with |- context [if ?b then _ else _] => destruct b end;
      auto using emitText_advances, emitRaw_advances, advances_refl. }
  assert (forall x, advances x (rule_step1 mode ll x)
                    /\ stack (rule_step1 mode ll x) = stack x) as R2.
  { intros x. unfold rule_step1, emitTextOrRaw.
    repeat match goal with |- context [if ?b then _ else _] => destruct b end;
      auto using emitText_advances, emitRaw_advances, advances_refl. }
  assert (forall x, advances x (rule_step2 mode ll x)
                    /\ stack (rule_step2 mode ll x) = stack x) as R3.
  { intros x. unfold rule_step2.
    repeat match goal with |- context [if ?b then _ else _] => destruct b end;
      auto using emitText_advances, emitRaw_advances, advances_refl. }
  assert (forall x, advances x (rule_testOutput mode ll x)
                    /\ stack (rule_testOutput mode ll x) = stack x) as R4.
  { intros x. unfold rule_testOutput.
    repeat match goal with |- context [if ?b then _ else _] => destruct b end;
      auto using emitMassaged_advances, advances_refl.
    split; [|done]. repeat split; try done. simpl. by eexists. }
  assert (forall x, advances x (rule_go mode bs ll x)
                    /\ stack (rule_go mode bs ll x) = stack x) as R5.
  { intros x. unfold rule_go.
    repeat match goal with |- context [if ?b then _ else _] => destruct b end;
      auto using emitText_advances, advances_refl. }
  assert (forall x, advances x (rule_outputActions mode ll x)
                    /\ stack (rule_outputActions mode ll x) = stack x) as R6.
  { intros x. unfold rule_outputActions. destruct (testEvent_ ll);
    repeat match goal with |- context [if ?b then _ else _] => destruct b end;
      auto using emitMassaged_advances, advances_refl. }
  assert (forall x, advances x (rule_fail mode ll x)
                    /\ stack (rule_fail mode ll x) = stack x) as R7.
  { intros x. unfold rule_fail. destruct (testEvent_ ll);
    repeat match goal with |- context [if ?b then _ else _] => destruct b end;
      auto using emitMassaged_advances, advances_refl. }
  assert (forall x, advances x (rule_onlyFailed fmt_g mode ll x)
                    /\ stack (rule_onlyFailed fmt_g mode ll x) = stack x) as R8.
  { intros x. unfold rule_onlyFailed. destruct (testEvent_ ll);
    repeat match goal with |- context [if ?b then _ else _] => destruct b end;
      auto using onlyFailed_advances, advances_refl. }
  repeat match goal with
         | |- advances _ (?f ?x) /\ _ =>
             match goal with
             | R : forall y, advances y (f y) /\ _ |- _ =>
                 destruct (R x) as [? ?];
                 cut (advances st x /\ stack x = stack st);
                 [intros [? ?]; split;
                  [by eapply advances_trans|congruence]|]
             end
         end.
  by split.
Qed.

(** X7.  One turn of the main loop never writes the context stack, never
    takes back output, and never resets a one-shot flag ([afterDwz],
    [afterMakeTest]; [first] and [firstMassaged] once false stay false). *)
Theorem process_advances (mode : Z) (ll : logline) (st : state) :
  stack (process fmt_g json_Unmarshal mode ll st) = stack st
  /\ advances st (process fmt_g json_Unmarshal mode ll st).
Proof.
  unfold process.
  set (bs := buildStep_of (stack st)). set (ll' := decode_event _ bs ll).
  destruct (update_flags_fields bs ll' st) as (Ho & Hs & _ & Hf & Hfm & _).
  destruct (update_first_out ll' (update_flags bs ll' st))
    as (Ho' & _ & Hs' & Hfm' & Hf' & _).
  destruct (display_advances mode bs ll'
              (update_first ll' (update_flags bs ll' st))) as [Ha Hst].
  split; [by rewrite Hst, Hs', Hs|].
  eapply advances_trans; [|exact Ha].
  repeat split.
  - by rewrite Ho', Ho.
  - intros Hd. unfold update_first, update_flags.
    repeat match goal with |- context [if ?b then _ else _] => destruct b end;
      by destruct st.
  - intros Hd. unfold update_first, update_flags.
    repeat match goal with |- context [if ?b then _ else _] => destruct b end;
      by destruct st.
  - done.
  - intros Hx. by rewrite Hfm', Hfm.
Qed.

(** What holds of the state before the main loop and is kept by the three
    things a turn does to it holds of the state after the loop. *)
Lemma scan_invariant (P : state -> Prop) (mode : Z) :
  (forall s st, P st -> P (print s st)) ->
  (forall (ll : logline) stk st, P st -> treeize (stack st) ll = Ok stk ->
                                 P (set_stack stk st)) ->
  (forall ll st, P st -> P (process fmt_g json_Unmarshal mode ll st)) ->
  forall lines st, P st -> P (scan fmt_g json_Unmarshal mode st lines).1.
Proof.
  intros Hprint Hstack Hproc lines.
  remember (length lines) as n eqn:Hn.
  revert lines Hn. induction (lt_wf n) as [n _ IH].
  intros lines -> st HP. destruct lines as [|l rest]; [done|].
  cbn [scan].
  destruct (has mode modeRawText).
  { apply (IH (length rest)); [simpl; lia | done | by apply Hprint]. }
  destruct (HasSuffix l " tests processed.").
  { destruct (has mode modeShowHeader); [by apply Hprint|done]. }
  destruct (HasPrefix l "Current time: "); [by apply Hprint|].
  destruct (logparse l) as [[ll|]|p]; [| |done].
  - destruct (treeize (stack st) ll) as [stk|p] eqn:Ht; [|done].
    pose proof (Hstack ll stk st HP Ht) as HP'.
    destruct (topOfStackIs stk "Test Output").
    + destruct rest as [|l2 rest2]; [done|].
      apply (IH (length rest2)); [simpl; lia | done | by apply Hproc].
    + apply (IH (length rest)); [simpl; lia | done | by apply Hproc].
  - apply (IH (length rest)); [simpl; lia | done | done].
Qed.

(** X8.  Along the whole main loop, in every mode and whether or not it
    ends in a panic: the output only grows (what was written stays written),
    [afterDwz] and [afterMakeTest] once true stay true, and [first] and
    [firstMassaged] once false stay false. *)
Theorem scan_advances (mode : Z) (lines : list string) (st : state) :
  advances st (scan fmt_g json_Unmarshal mode st lines).1.
Proof.
  apply (scan_invariant (advances st)).
  - intros s x Hx. eapply advances_trans; [exact Hx|].
    repeat split; try done. simpl. by eexists.
  - intros ll stk x Hx _. eapply advances_trans; [exact Hx|].
    by repeat split.
  - intros ll x Hx. eapply advances_trans; [exact Hx|].
    apply process_advances.
  - apply advances_refl.
Qed.

(** The stack keeps its capacity and never exceeds it. *)
Lemma scan_stack_bounds (mode : Z) (lines : list string) (st : state) :
  scap (stack st) = 20%nat -> (slen (stack st) <= 20)%nat ->
  scap (stack (scan fmt_g json_Unmarshal mode st lines).1) = 20%nat
  /\ (slen (stack (scan fmt_g json_Unmarshal mode st lines).1) <= 20)%nat.
Proof.
  intros Hc Hl.
  apply (scan_invariant
           (fun x => scap (stack x) = 20%nat /\ (slen (stack x) <= 20)%nat));
    [done | | | done].
  - intros ll stk x [Hx1 Hx2] Ht. cbn [stack set_stack].
    pose proof (treeize_cap _ _ _ Ht) as Hcap.
    pose proof (treeize_ok_bounds _ _ _ Ht) as [Hn Hd].
    destruct (treeize_array (stack x) ll Hn Hd) as (a & Ha & _).
    rewrite Ha in Ht. injection Ht as <-. simpl. split; [congruence|lia].
  - intros ll x Hx. by rewrite (proj1 (process_advances mode ll x)).
Qed.

(** X9.  Safety of the scan: when every line of the log is either no record
    or a record with at most as many tags as tabs and at most 20 tabs, the
    main loop cannot panic in the parser or in the context tracker; the one
    panic left is the log that stops right after a "Test Output" record. *)
Theorem scan_safe (mode : Z) (lines : list string) (st : state) :
  scap (stack st) = 20%nat ->
  forallb (safe_line float64) lines = true ->
  (scan fmt_g json_Unmarshal mode st lines).2 = None
  \/ (scan fmt_g json_Unmarshal mode st lines).2 = Some NoLineAfterTestOutput.
Proof.
  remember (length lines) as n eqn:Hn.
  revert lines st Hn. induction (lt_wf n) as [n _ IH].
  intros lines st -> Hc Hsafe. destruct lines as [|l rest]; [by left|].
  cbn [forallb] in Hsafe. apply andb_true_iff in Hsafe as [Hl Hrest].
  cbn [scan].
  destruct (has mode modeRawText).
  { apply (IH (length rest)); [simpl; lia | done | done | done]. }
  destruct (HasSuffix l " tests processed.").
  { left. by destruct (has mode modeShowHeader). }
  destruct (HasPrefix l "Current time: "); [by left|].
  unfold safe_line in Hl.
  destruct (logparse l) as [[ll|]|p]; [| |done].
  - apply andb_true_iff in Hl as [Hn Hd].
    apply Nat.leb_le in Hn. apply Nat.leb_le in Hd.
    destruct (treeize_array (stack st) ll Hn) as (a & Ha & Hlen & _); [lia|].
    rewrite Ha.
    destruct (topOfStackIs (mkSlice a (indent ll)) "Test Output").
    + destruct rest as [|l2 rest2]; [by right|].
      cbn [forallb] in Hrest. apply andb_true_iff in Hrest as [_ Hrest2].
      apply (IH (length rest2)); [simpl; lia | done | | done].
      rewrite (proj1 (process_advances mode _ _)). simpl.
      unfold scap in *. simpl. lia.
    + apply (IH (length rest)); [simpl; lia | done | | done].
      rewrite (proj1 (process_advances mode _ _)). simpl.
      unfold scap in *. simpl. lia.
  - apply (IH (length rest)); [simpl; lia | done | done | done].
Qed.

Lemma has_header (verbose : Z) : has (mode_of verbose) modeShowHeader = true.
Proof.
  unfold mode_of.
  destruct (verbose =? verboseNothing); [reflexivity|].
  destruct (verbose =? verboseGoTestVerbose); [reflexivity|].
  destruct (verbose =? verboseTestOutput); reflexivity.
Qed.

Lemma header_no_blank (mode : Z) (o : list string) (s : scanner) :
  has mode modeShowHeader = true ->
  forallb nonempty (sc_run s) = true ->
  header mode o s = (o ++ map echo (sc_run s), failed s).
Proof.
  intros Hh. destruct s as [lines next]. unfold header, failed.
  cbn [sc_run sc_next].
  revert o. induction lines as [|l lines IH]; intros o H.
  - simpl. by rewrite app_nil_r.
  - cbn [forallb] in H. apply andb_true_iff in H as [Hl H].
    apply negb_true_iff in Hl. cbn [header_loop].
    rewrite Hh, Hl, (IH _ H). by rewrite <- app_assoc.
Qed.

(** X10.  A log without an empty line among the lines of its scanner is all
    header: at every verbosity [cleanupLog] echoes each of these lines, and
    the main loop gets only what the scanner yields after the [Scan] that
    ended the header loop.  When every line of the log fits the scanner's
    buffer that is nothing: no line is parsed, so no line can make it
    panic.  When a line does not fit, it is the first 65536 bytes of that
    line, less one carriage return at their end. *)
Theorem cleanupLog_all_header (logbody : string) (verbose : Z) :
  forallb nonempty (scanLines logbody) = true ->
  cleanupLog fmt_g json_Unmarshal logbody verbose
  = (let '(st, p) :=
       scan fmt_g json_Unmarshal (mode_of verbose)
         (init_state (map echo (scanLines logbody)))
         (option_list (scanChunk logbody)) in
     (out st, p))
  /\ (scanChunk logbody = None ->
      cleanupLog fmt_g json_Unmarshal logbody verbose
      = (map echo (scanLines logbody), None)).
Proof.
  intros H.
  assert (cleanupLog fmt_g json_Unmarshal logbody verbose
          = (let '(st, p) :=
               scan fmt_g json_Unmarshal (mode_of verbose)
                 (init_state (map echo (scanLines logbody)))
                 (option_list (scanChunk logbody)) in
             (out st, p))) as Hrun.
  { unfold cleanupLog, cleanupLines.
    by rewrite (header_no_blank _ [] (NewScanner logbody)
                  (has_header verbose) H). }
  split; [exact Hrun|]. intros Hc. rewrite Hrun, Hc. reflexivity.
Qed.

Lemma display_cached_off (mode : Z) (bs : bool) (ll : logline) (st : state) :
  has mode modeShowOnlyFailed = false ->
  cached (display fmt_g mode bs ll st) = cached st.
Proof.
  intros Hoff. unfold display, rule_onlyFailed. rewrite Hoff.
  assert (forall x y, cached x = cached y ->
            cached (rule_fail mode ll
                      (rule_outputActions mode ll
                         (rule_go mode bs ll
                            (rule_testOutput mode ll
                               (rule_step2 mode ll
                                  (rule_step1 mode ll
                                     (rule_root mode ll x)))))))
            = cached y) as H.
  { intros x y Hxy.
    unfold rule_fail, rule_outputActions, rule_go, rule_testOutput,
      rule_step2, rule_step1, rule_root, emitTextOrRaw.
    destruct (testEvent_ ll);
      repeat match goal with |- context [if ?b then _ else _] => destruct b end;
      repeat first [ rewrite emitMassaged_cached | rewrite emitText_cached
                   | rewrite emitRaw_cached | progress cbn [cached print] ];
      exact Hxy. }
  destruct (testEvent_ ll); by apply H.
Qed.

(** X11.  The buffer of pending records belongs to the silent policy: in a
    mode without [modeShowOnlyFailed] (verbosity 1, 2 and raw) it is empty
    from the start to the end of the scan. *)
Theorem cached_unused (mode : Z) (lines : list string) (st : state) :
  has mode modeShowOnlyFailed = false ->
  cached st = [] ->
  cached (scan fmt_g json_Unmarshal mode st lines).1 = [].
Proof.
  intros Hoff Hc.
  apply (scan_invariant (fun x => cached x = [])); [done | done | | done].
  intros ll x Hx. unfold process.
  rewrite display_cached_off by done.
  destruct (update_first_out
              (decode_event json_Unmarshal (buildStep_of (stack x)) ll)
              (update_flags (buildStep_of (stack x))
                 (decode_event json_Unmarshal (buildStep_of (stack x)) ll) x))
    as (_ & -> & _).
  destruct (update_flags_fields (buildStep_of (stack x))
              (decode_event json_Unmarshal (buildStep_of (stack x)) ll) x)
    as (_ & _ & -> & _).
  exact Hx.
Qed.

(** ** The policies, record by record *)

(** The state in which the display rules start. *)
Lemma before_display (bs : bool) (ll : logline) (st : state) :
  let st2 := set_emitted false (update_first ll (update_flags bs ll st)) in
  stack st2 = stack st /\ out st2 = out st
  /\ firstMassaged st2 = firstMassaged st
  /\ lastTime st2 = (if first st then time ll else lastTime st)
  /\ emitted st2 = false.
Proof.
  intros st2. subst st2. cbn [stack out firstMassaged lastTime emitted set_emitted].
  destruct (update_flags_fields bs ll st) as (Ho & Hs & _ & Hf & Hfm & Hlt).
  destruct (update_first_out ll (update_flags bs ll st))
    as (Ho' & _ & Hs' & Hfm' & _ & Hlt').
  by rewrite Hs', Hs, Ho', Ho, Hfm', Hfm, Hlt', Hf, Hlt.
Qed.

Lemma emitText_fresh (ll : logline) (st : state) :
  emitted st = false ->
  out (emitText ll st)
  = out st ++ rows (firstMassaged st) (lastTime st) [(time ll, text ll)].
Proof. intros He. unfold emitText. rewrite He. by rewrite emitMassaged_spec. Qed.

Lemma topOfStackIs_other (stk : slice) (a b : string) :
  topOfStackIs stk a = true -> a <> b -> topOfStackIs stk b = false.
Proof.
  unfold topOfStackIs. intros H Hne. apply andb_true_iff in H as [-> H].
  apply String.eqb_eq in H. rewrite H. simpl. by apply String.eqb_neq.
Qed.

Lemma buildStep_not_testOutput (stk : slice) :
  buildStep_of stk = true ->
  topOfStackIs stk "Test Output" = false /\ (slen stk =? 0)%nat = false.
Proof.
  unfold buildStep_of. intros H. apply orb_true_iff in H as [H|H].
  - split; [by apply (topOfStackIs_other _ _ _ H)|].
    unfold topOfStackIs in H. apply andb_true_iff in H as [H _].
    apply Nat.ltb_lt in H. apply Nat.eqb_neq. lia.
  - split; [by apply (topOfStackIs_other _ _ _ H)|].
    unfold topOfStackIs in H. apply andb_true_iff in H as [H _].
    apply Nat.ltb_lt in H. apply Nat.eqb_neq. lia.
Qed.

Lemma update_flags_off (ll : logline) (st : state) :
  update_flags false ll st = st.
Proof. unfold update_flags. by rewrite !andb_false_r. Qed.

(** X12.  Test-output policy (verbosity 2): a record at the root of the log
    (no tab, empty path) is always shown, as exactly one massaged row of its
    text; no other rule adds anything for it. *)
Theorem root_record_shown (ll : logline) (st : state) :
  slen (stack st) = O ->
  testEvent_ ll = None ->
  let st' := process fmt_g json_Unmarshal (mode_of verboseTestOutput) ll st in
  let lt := if first st then time ll else lastTime st in
  out st' = out st ++ rows (firstMassaged st) lt [(time ll, text ll)].
Proof.
  intros H0 Hev st' lt. subst st' lt. unfold process.
  assert (buildStep_of (stack st) = false) as ->.
  { unfold buildStep_of, topOfStackIs. by rewrite H0. }
  change (decode_event json_Unmarshal false ll) with ll.
  rewrite update_flags_off.
  destruct (before_display false ll st) as (Hs & Ho & Hfm & Hlt & He).
  rewrite update_flags_off in *.
  set (st2 := set_emitted false (update_first ll st)) in *.
  unfold display. fold st2.
  assert (rule_root (mode_of verboseTestOutput) ll st2 = emitText ll st2) as ->.
  { unfold rule_root, emitTextOrRaw. has_compute. by rewrite Hs, H0. }
  pose proof (proj2 (emitText_advances ll st2)) as Hs3.
  set (st3 := emitText ll st2) in *.
  assert (stackHas (stack st3) "Step 1/2" = false
          /\ stackHas (stack st3) "Step 2/2" = false
          /\ stackHas (stack st3) "Step 1/1" = false
          /\ topOfStackIs (stack st3) "Test Output" = false) as (E1 & E2 & E3 & E4).
  { rewrite Hs3, Hs. unfold stackHas, topOfStackIs, elems. by rewrite H0. }
  unfold rule_step1, rule_step2, rule_testOutput, rule_go, rule_outputActions,
    rule_fail, rule_onlyFailed.
  has_compute. rewrite Hev, E1. cbn [andb orb].
  rewrite E2, E3. cbn [andb orb]. rewrite E4. cbn [andb].
  subst st3. by rewrite (emitText_fresh ll st2 He), Ho, Hfm, Hlt.
Qed.

(** The record as the display rules see it when its text decodes. *)
Lemma decode_event_Some (ll : logline) (te : testEvent) :
  HasPrefix (text ll) "{" = true ->
  json_Unmarshal (text ll) = Some te ->
  Action te <> "" ->
  decode_event json_Unmarshal true ll = set_testEvent (Some te) ll.
Proof.
  intros Hbrace Hjson Hact.
  unfold decode_event. destruct (text ll) as [|c t] eqn:Ht; [done|].
  cbn [HasPrefix] in Hbrace. rewrite andb_true_r in Hbrace. rewrite Hbrace.
  rewrite Hjson. apply String.eqb_neq in Hact. by rewrite Hact.
Qed.

(** X13.  Verbose policy (verbosity 1): for a record of the build step whose
    text decodes to an event, the raw JSON is never printed; the record
    prints the output fragment of the event, as one massaged row, when the
    action is "output", and nothing for any other action. *)
Theorem verbose_event (ll : logline) (te : testEvent) (st : state) :
  buildStep_of (stack st) = true ->
  HasPrefix (text ll) "{" = true ->
  json_Unmarshal (text ll) = Some te ->
  Action te <> "" ->
  let st' := process fmt_g json_Unmarshal (mode_of verboseGoTestVerbose) ll st in
  let lt := if first st then time ll else lastTime st in
  out st' = out st ++ rows (firstMassaged st) lt
                        (if String.eqb (Action te) "output"
                         then [(time ll, Output te)] else []).
Proof.
  intros Hbs Hbrace Hjson Hact st' lt. subst st' lt. unfold process.
  rewrite Hbs, (decode_event_Some ll te) by done.
  set (ll' := set_testEvent (Some te) ll).
  destruct (before_display true ll' st) as (Hs & Ho & Hfm & Hlt & He).
  set (st2 := set_emitted false (update_first ll' (update_flags true ll' st))) in *.
  unfold display. fold st2.
  unfold rule_root, rule_step1, rule_step2, rule_testOutput, rule_go,
    rule_outputActions, rule_fail, rule_onlyFailed, shouldShow.
  has_compute. cbn [testEvent_ ll' set_testEvent andb negb orb].
  rewrite bool_decide_true by done.
  cbn [andb negb orb]. rewrite !andb_false_r. cbn [andb negb orb].
  destruct (String.eqb (Action te) "output").
  - rewrite emitMassaged_spec. cbn [out]. by rewrite Ho, Hfm, Hlt.
  - rewrite Ho. simpl. by rewrite app_nil_r.
Qed.

(** X14.  Test-output policy (verbosity 2): for a record of the build step
    whose text decodes to an event and whose path does not go through
    "Step 1/2", the raw JSON is never printed; a "fail" event prints the
    row "FAIL", tab, package, and any other action prints nothing. *)
Theorem testoutput_event (ll : logline) (te : testEvent) (st : state) :
  buildStep_of (stack st) = true ->
  stackHas (stack st) "Step 1/2" = false ->
  HasPrefix (text ll) "{" = true ->
  json_Unmarshal (text ll) = Some te ->
  Action te <> "" ->
  let st' := process fmt_g json_Unmarshal (mode_of verboseTestOutput) ll st in
  let lt := if first st then time ll else lastTime st in
  out st' = out st ++ rows (firstMassaged st) lt
                        (if String.eqb (Action te) "fail"
                         then [(time ll, "FAIL" +:+ TAB +:+ Package te)]
                         else []).
Proof.
  intros Hbs H12 Hbrace Hjson Hact st' lt. subst st' lt. unfold process.
  rewrite Hbs, (decode_event_Some ll te) by done.
  set (ll' := set_testEvent (Some te) ll).
  destruct (before_display true ll' st) as (Hs & Ho & Hfm & Hlt & He).
  destruct (buildStep_not_testOutput _ Hbs) as [Hto Hnz].
  set (st2 := set_emitted false (update_first ll' (update_flags true ll' st))) in *.
  unfold display. fold st2.
  unfold rule_root, rule_step1, rule_step2, rule_testOutput, rule_go,
    rule_outputActions, rule_fail, rule_onlyFailed, shouldShow.
  has_compute. cbn [testEvent_ ll' set_testEvent andb negb orb].
  rewrite bool_decide_true by done.
  repeat first [ rewrite Hs | rewrite Hnz | rewrite H12 | rewrite Hto
               | rewrite andb_false_r | progress cbn [andb negb orb] ].
  rewrite andb_true_r.
  destruct (String.eqb (Action te) "fail").
  - rewrite emitMassaged_spec. cbn [out]. by rewrite Ho, Hfm, Hlt.
  - rewrite Ho. simpl. by rewrite app_nil_r.
Qed.

(** X15.  Silent and verbose policies (verbosity 0 and 1): a record without
    a decoded event whose innermost slot is not exactly "Step 2/2" prints
    nothing, wherever "Step 2/2" may be in its path, unless, at verbosity
    0, its text starts with "Go ". *)
Theorem not_top_hidden (verbose : Z) (ll : logline) (st : state) :
  verbose = 1 \/ (verbose = 0 /\ HasPrefix (text ll) "Go " = false) ->
  testEvent_ (decode_event json_Unmarshal (buildStep_of (stack st)) ll) = None ->
  topOfStackIs (stack st) "Step 2/2" = false ->
  out (process fmt_g json_Unmarshal (mode_of verbose) ll st) = out st.
Proof.
  intros Hv Hev Htop. unfold process.
  apply decode_event_None in Hev as Hll. rewrite Hll in *.
  set (bs := buildStep_of (stack st)).
  destruct (before_display bs ll st) as (Hs & Ho & _).
  set (st2 := set_emitted false (update_first ll (update_flags bs ll st))) in *.
  unfold display. fold st2.
  unfold rule_root, rule_step1, rule_step2, rule_testOutput, rule_go,
    rule_outputActions, rule_fail, rule_onlyFailed, shouldShow.
  destruct Hv as [->|[-> Hgo]]; has_compute; rewrite Hev.
  - repeat first [ rewrite Hs | rewrite Htop | rewrite andb_false_r
                 | progress cbn [andb negb orb] ].
    exact Ho.
  - repeat first [ rewrite Hs | rewrite Htop | rewrite Hgo
                 | rewrite andb_false_r | progress cbn [andb negb orb] ].
    exact Ho.
Qed.


End Further.

(** * The command line and the summary *)

Lemma log_args_acc (args : list string) (v : Z) (name : string) :
  (foldl log_arg_step (v, name) args).1 = v + flag_levels args.
Proof.
  revert v name. induction args as [|a args IH]; intros v name; simpl.
  - lia.
  - unfold log_arg_step at 2. destruct (is_flag a); simpl; rewrite IH; lia.
Qed.

Lemma log_args_flags (args : list string) (v : Z) (name : string) :
  forallb is_flag args = true ->
  (foldl log_arg_step (v, name) args).2 = name.
Proof.
  revert v name. induction args as [|a args IH]; intros v name H; [done|].
  simpl in H. apply andb_true_iff in H as [Ha H]. simpl.
  unfold log_arg_step at 2. rewrite Ha. simpl. by apply IH.
Qed.

Lemma flag_levels_app (l1 l2 : list string) :
  flag_levels (l1 ++ l2) = flag_levels l1 + flag_levels l2.
Proof. induction l1 as [|a l1 IH]; simpl; [done|]. rewrite IH. lia. Qed.

Lemma flag_count_levels (args : list string) :
  0 <= flag_count args <= flag_levels args.
Proof.
  induction args as [|a args IH]; simpl; [lia|].
  destruct (is_flag a) eqn:Ha; [|lia].
  unfold is_flag in Ha. destruct a as [|c1 [|c2 a]]; try discriminate.
  - simpl in Ha. by rewrite andb_false_r in Ha.
  - simpl String.length. lia.
Qed.

(** X17.  The "log" command: the verbosity is the number of bytes after the
    dash of every argument that starts with "-v", added up, wherever these
    arguments stand; the log is the last other argument, and without one
    (or when it is empty) the command prints the usage.  Each such argument
    counts for at least one level, so three of them or more always give the
    raw mode. *)
Theorem log_command_spec (pre post : list string) (name : string) :
  is_flag name = false ->
  forallb is_flag post = true ->
  log_args (pre ++ name :: post) = (flag_levels (pre ++ post), name)
  /\ log_command (pre ++ name :: post)
     = (if String.eqb name "" then Usage
        else Cleanup name (flag_levels (pre ++ post)))
  /\ log_command post = Usage
  /\ (3 <= flag_count (pre ++ post) ->
      mode_of (flag_levels (pre ++ post)) = Z.lor modeRawText modeShowHeader).
Proof.
  intros Hname Hpost.
  assert (log_args (pre ++ name :: post) = (flag_levels (pre ++ post), name))
    as Hargs.
  { unfold log_args. rewrite foldl_app. cbn [foldl].
    unfold log_arg_step at 2. rewrite Hname.
    apply injective_projections.
    - rewrite log_args_acc. cbn [fst]. rewrite log_args_acc, flag_levels_app.
      lia.
    - by rewrite log_args_flags. }
  split; [exact Hargs|]. split; [|split].
  - unfold log_command. by rewrite Hargs.
  - unfold log_command, log_args.
    pose proof (log_args_flags post 0 "" Hpost) as H.
    destruct (foldl log_arg_step (0, "") post) as [v l]. simpl in H.
    by rewrite H.
  - intros H3. pose proof (flag_count_levels (pre ++ post)) as H.
    apply mode_of_raw; lia.
Qed.

(** ** The counts *)

Lemma get_int_insert (m : gmap string Z) (k t : string) (v : Z) :
  get_int (<[k := v]> m) t = if decide (k = t) then v else get_int m t.
Proof.
  unfold get_int. rewrite lookup_insert. by destruct (decide (k = t)).
Qed.

Lemma get_str_insert (m : gmap string string) (k t : string) (v : string) :
  get_str (<[k := v]> m) t = if decide (k = t) then v else get_str m t.
Proof.
  unfold get_str. rewrite lookup_insert. by destruct (decide (k = t)).
Qed.

Lemma finished_of_spec (t : string) (b : buildStatus) :
  String.eqb (State b) "finished" = true ->
  finished_of t b = bool_decide (BuildTypeId b = t).
Proof.
  intros H. unfold finished_of. rewrite H. simpl.
  destruct (String.eqb_spec (BuildTypeId b) t).
  - by rewrite bool_decide_true.
  - by rewrite bool_decide_false.
Qed.

(** The loop of the counts from any three maps. *)
Lemma count_loop (builds : list buildStatus) (c : counts) (t : string) :
  let c' := foldl count_step c builds in
  get_int (bstot c') t = get_int (bstot c) t + finished_count t builds
  /\ get_int (bssucc c') t = get_int (bssucc c) t + success_count t builds
  /\ get_str (bslast c') t
     = (if String.eqb (get_str (bslast c) t) "" then first_status t builds
        else get_str (bslast c) t).
Proof.
  revert c. induction builds as [|b builds IH]; intros c; cbn zeta.
  - simpl. repeat split; try lia. by destruct (String.eqb_spec (get_str (bslast c) t) "").
  - cbn [foldl finished_count success_count first_status].
    destruct (IH (count_step c b)) as (H1 & H2 & H3). cbn zeta in *.
    rewrite H1, H2, H3. clear H1 H2 H3 IH.
    unfold count_step.
    destruct (String.eqb (State b) "finished") eqn:Hf; cbn [negb].
    + rewrite (finished_of_spec t b Hf). cbn [bstot bssucc bslast].
      rewrite get_int_insert.
      destruct (decide (BuildTypeId b = t)) as [->|Hne].
      * rewrite bool_decide_true by done. cbn [andb].
        split; [lia|]. split.
        -- destruct (String.eqb (Status b) "SUCCESS");
             [rewrite get_int_insert, decide_True by done|]; lia.
        -- destruct (String.eqb (get_str (bslast c) t) "") eqn:Hl.
           ++ rewrite get_str_insert, decide_True by done.
              destruct (String.eqb (Status b) "") eqn:Hs; [done|].
              by simpl.
           ++ by rewrite Hl.
      * rewrite bool_decide_false by done. cbn [andb].
        split; [lia|]. split.
        -- destruct (String.eqb (Status b) "SUCCESS");
             [rewrite get_int_insert, decide_False by done|]; lia.
        -- destruct (String.eqb (get_str (bslast c) (BuildTypeId b)) "");
             [rewrite get_str_insert, decide_False by done|]; done.
    + unfold finished_of. rewrite Hf. cbn [andb].
      repeat split; lia || done.
Qed.

Lemma success_le_finished (t : string) (builds : list buildStatus) :
  0 <= success_count t builds <= finished_count t builds.
Proof.
  induction builds as [|b builds IH]; simpl; [lia|].
  destruct (finished_of t b); simpl; [|lia].
  destruct (String.eqb (Status b) "SUCCESS"); lia.
Qed.

(** X18.  The counts of the summary: for every build type, [bstot] is the
    number of finished builds of that type, [bssucc] the number of them
    whose status is "SUCCESS" (so never more than [bstot]), and [bslast]
    the status of the first finished build of that type in the list that
    has a non-empty status; a type without finished build has 0, 0 and the
    empty status.  Builds that are not finished count for nothing. *)
Theorem count_builds_spec (builds : list buildStatus) (t : string) :
  let c := count_builds builds in
  get_int (bstot c) t = finished_count t builds
  /\ get_int (bssucc c) t = success_count t builds
  /\ get_str (bslast c) t = first_status t builds
  /\ 0 <= get_int (bssucc c) t <= get_int (bstot c) t
  /\ (finished_count t builds = 0 ->
      get_int (bssucc c) t = 0 /\ get_str (bslast c) t = "").
Proof.
  intros c. subst c. unfold count_builds.
  destruct (count_loop builds (mkCounts ∅ ∅ ∅) t) as (H1 & H2 & H3).
  cbn zeta in *. cbn [bstot bssucc bslast] in *.
  change (get_int ∅ t) with 0 in *. change (get_str ∅ t) with "" in *.
  simpl in H1, H2, H3.
  pose proof (success_le_finished t builds) as Hle.
  split; [done|]. split; [done|]. split; [done|]. split; [lia|].
  intros H0. split; [lia|]. rewrite H3. clear -H0.
  induction builds as [|b builds IH]; [done|]. simpl in *.
  pose proof (success_le_finished t builds).
  destruct (finished_of t b); simpl.
  - assert (0 <= finished_count t builds) by lia. lia.
  - apply IH. lia.
Qed.

(** ** The cells of the table *)

Lemma cut_at_spec (c : ascii) (s a b : string) :
  cut_at c s = Some (a, b) ->
  s = a +:+ String c b /\ lacks c a = true.
Proof.
  revert a b. induction s as [|x s IH]; intros a b; simpl; [discriminate|].
  destruct (Ascii.eqb x c) eqn:E.
  - intros [= <- <-]. apply Ascii.eqb_eq in E as ->. by split.
  - destruct (cut_at c s) as [[a' b']|]; [|discriminate].
    intros [= <- <-]. destruct (IH _ _ eq_refl) as [-> Hl].
    split; [reflexivity|]. simpl. by rewrite E, Hl.
Qed.

Lemma lacks_app (c : ascii) (a b : string) :
  lacks c (a +:+ b) = lacks c a && lacks c b.
Proof.
  induction a as [|x a IH]; [reflexivity|].
  rewrite append_cons. simpl. rewrite IH. by rewrite andb_assoc.
Qed.

Lemma replace_slash_app (a b : string) :
  replace_slash (a +:+ b) = replace_slash a +:+ replace_slash b.
Proof.
  induction a as [|x a IH]; [reflexivity|].
  rewrite append_cons. simpl. by rewrite IH.
Qed.

Lemma replace_slash_id (a : string) :
  lacks "/" a = true -> replace_slash a = a.
Proof.
  induction a as [|x a IH]; [done|]. simpl. intros H.
  apply andb_true_iff in H as [Hx Ha]. apply negb_true_iff in Hx.
  by rewrite Hx, IH.
Qed.

(** A string without underscore that is followed by an underscore where
    "Delve_" starts the whole is "Delve". *)
Lemma delve_head (v0 r : string) :
  lacks "_" v0 = true -> HasPrefix (v0 +:+ String "_" r) "Delve_" = true ->
  v0 = "Delve".
Proof.
  intros Hl Hp.
  repeat (destruct v0 as [|? v0];
          [ cbn in Hp; try discriminate;
            repeat (match type of Hp with
                    | context [Ascii.eqb ?a ?b] =>
                        let E := fresh in
                        destruct (Ascii.eqb_spec a b) as [E|E];
                        [try subst|cbn in Hp; try discriminate]
                    end); cbn in Hp; try discriminate; try reflexivity
          | rewrite append_cons in Hp; cbn [HasPrefix] in Hp;
            apply andb_true_iff in Hp as [?E Hp];
            apply Ascii.eqb_eq in E; subst;
            simpl in Hl; try discriminate ]).
Qed.

(** X19.  The table finds every build type it holds under its own name: a
    build type without ['/'] that goes to the table with a platform and a
    version is the type whose counts its cell shows, so two different build
    types never share a cell. *)
Theorem table_entry_cell (btype plat ver : string) :
  lacks "/" btype = true ->
  table_entry btype = Some (plat, ver) ->
  cell_type plat ver = btype
  /\ (forall btype', lacks "/" btype' = true ->
        table_entry btype' = Some (plat, ver) -> btype' = btype).
Proof.
  assert (forall b p v, lacks "/" b = true -> table_entry b = Some (p, v) ->
                        cell_type p v = b) as H.
  { intros b p v Hl. unfold table_entry, SplitN4.
    destruct (cut_at "_" b) as [[v0 r0]|] eqn:E0; [|discriminate].
    destruct (cut_at "_" r0) as [[v1 r1]|] eqn:E1; [|discriminate].
    destruct (cut_at "_" r1) as [[v2 r2]|] eqn:E2; [|discriminate].
    destruct (HasPrefix b "Delve_") eqn:Hp; [|discriminate].
    intros [= <- <-].
    apply cut_at_spec in E0 as [-> H0]. apply cut_at_spec in E1 as [-> H1].
    apply cut_at_spec in E2 as [-> H2].
    apply delve_head in Hp as ->; [|done].
    rewrite !lacks_app in Hl. cbn [lacks] in Hl.
    rewrite !lacks_app in Hl. cbn [lacks] in Hl.
    rewrite !lacks_app in Hl.
    repeat (apply andb_true_iff in Hl as [? Hl] || apply andb_true_iff in Hl as [Hl ?]).
    unfold cell_type. rewrite !replace_slash_app. cbn [replace_slash Ascii.eqb Bool.eqb].
    rewrite !replace_slash_id by (repeat match goal with
                                         | K : _ && _ = true |- _ =>
                                             apply andb_true_iff in K as [? ?]
                                         end; done).
    by rewrite !append_assoc. }
  intros Hl He. split; [by apply H|].
  intros b' Hl' He'. rewrite <- (H _ _ _ Hl He). symmetry. by apply H.
Qed.

(** * Instances of the further properties *)

Lemma logparse_record_witness :
  let line := log_line "10:00:00" 2 " [Step 2/2] [unterminated" in
  let ll := record "10:00:00" 2 ["Step 2/2"] " [Step 2/2] [unterminated"
              "unterminated" in
  logparse line = Ok (Some ll)
  /\ raw ll = line /\ is_suffix (text ll) line
  /\ forallb no_close (tags ll) = true
  /\ addtext ll = "" /\ testEvent_ ll = None.
Proof.
  intros line ll.
  assert (logparse line = Ok (Some ll)) as H by (vm_compute; reflexivity).
  split; [exact H|]. exact (logparse_record line ll H).
Defined.

Lemma logparse_render_witness :
  String.length "10" = 2%nat /\ String.length "00" = 2%nat
  /\ String.length "07" = 2%nat
  /\ forallb no_close ["Step 2/2"; "Test Output"] = true
  /\ HasPrefix "--- FAIL: TestX" "[" = false
  /\ logparse (render_line "10" "00" "07" "W" 2 ["Step 2/2"; "Test Output"]
                 "--- FAIL: TestX")
     = Ok (Some (mkLogline
                   (render_line "10" "00" "07" "W" 2
                      ["Step 2/2"; "Test Output"] "--- FAIL: TestX")
                   (Atoi_ "10" * 3600 + Atoi_ "00" * 60 + Atoi_ "07") 2
                   ["Step 2/2"; "Test Output"] "--- FAIL: TestX" ""
                   (None : option (testEvent string)))).
Proof.
  do 5 (split; [reflexivity|]).
  exact (logparse_render (float64:=string) "10" "00" "07" "W" 2
           ["Step 2/2"; "Test Output"] "--- FAIL: TestX"
           eq_refl eq_refl eq_refl eq_refl eq_refl).
Defined.

Lemma treeize_elems_witness :
  let stk := stack_of ["Step 2/2"; "Test Output"; "old"] in
  let ll := record "10:00:00" 5 ["a"; "b"] " [a] [b] text" "text" in
  (slen stk <= scap stk)%nat
  /\ (length (tags ll) <= indent ll)%nat
  /\ (indent ll <= scap stk)%nat
  /\ exists stk',
       treeize stk ll = Ok stk'
       /\ elems stk'
          = take (indent ll - length (tags ll))
              (elems stk ++ replicate (indent ll - slen stk) EmptyString)
            ++ tags ll.
Proof.
  intros stk ll.
  assert (slen stk <= scap stk)%nat as H1 by (vm_compute; lia).
  assert (length (tags ll) <= indent ll)%nat as H2 by (vm_compute; lia).
  assert (indent ll <= scap stk)%nat as H3 by (vm_compute; lia).
  split; [exact H1|]. split; [exact H2|]. split; [exact H3|].
  exact (treeize_elems stk ll H1 H2 H3).
Defined.

Lemma treeize_idempotent_witness :
  let stk := stack_of ["Step 2/2"; "Test Output"; "old"] in
  let ll := record "10:00:00" 2 ["Step 1/2"] " [Step 1/2] text" "text" in
  let stk' := mkSlice (["Step 2/2"; "Step 1/2"; "old"]
                       ++ replicate 17 EmptyString) 2 in
  treeize stk ll = Ok stk' /\ treeize stk' ll = Ok stk'.
Proof.
  intros stk ll stk'.
  assert (treeize stk ll = Ok stk') as H by (vm_compute; reflexivity).
  split; [exact H|]. exact (treeize_idempotent stk stk' ll H).
Defined.

Lemma treeize_top_witness :
  let stk := stack_of ["Step 2/2"; "Test Output"; "old"] in
  let ll := record "10:00:00" 2 ["Step 1/2"] " [Step 1/2] text" "text" in
  let stk' := mkSlice (["Step 2/2"; "Step 1/2"; "old"]
                       ++ replicate 17 EmptyString) 2 in
  treeize stk ll = Ok stk' /\ tags ll <> []
  /\ (forall t, topOfStackIs stk' t = true <-> last (tags ll) = Some t)
  /\ (forall t, t ∈ tags ll -> stackHas stk' t = true).
Proof.
  intros stk ll stk'.
  assert (treeize stk ll = Ok stk') as H by (vm_compute; reflexivity).
  assert (tags ll <> []) as Hne by discriminate.
  split; [exact H|]. split; [exact Hne|].
  exact (treeize_top stk stk' ll H Hne).
Defined.

Lemma scan_safe_witness :
  let lines := [log_line "10:00:00" 1 " [Step 2/2] + make test";
                "noise";
                log_line "10:00:01" 2 " [Test Output] case 1"] in
  scap (stack (state_at [])) = 20%nat
  /\ forallb (safe_line string) lines = true
  /\ ((scan sample_g sample_json (mode_of 0) (state_at []) lines).2 = None
      \/ (scan sample_g sample_json (mode_of 0) (state_at []) lines).2
         = Some NoLineAfterTestOutput)
  /\ (scan sample_g sample_json (mode_of 0) (state_at []) lines).2
     = Some NoLineAfterTestOutput.
Proof.
  intros lines. split; [reflexivity|]. split; [vm_compute; reflexivity|].
  split; [|vm_compute; reflexivity].
  apply (scan_safe sample_g sample_json (mode_of 0) lines (state_at []));
    vm_compute; reflexivity.
Defined.

Lemma cleanupLog_all_header_witness :
  let body := unlines ["TeamCity build log";
                       log_line "10:00:00" 30 " [a] [b] not parsed"] in
  forallb nonempty (scanLines body) = true
  /\ scanChunk body = None
  /\ cleanupLog sample_g sample_json body 0
     = (map echo (scanLines body), None).
Proof.
  intros body. split; [vm_compute; reflexivity|].
  split; [vm_compute; reflexivity|].
  apply (cleanupLog_all_header sample_g sample_json body 0);
    vm_compute; reflexivity.
Defined.

Lemma cached_unused_witness :
  let lines := [log_line "10:00:00" 1 (" [Step 2/2] " +:+ json_output);
                log_line "10:00:01" 1 (" [Step 2/2] " +:+ json_fail)] in
  has (mode_of 1) modeShowOnlyFailed = false
  /\ cached (state_at []) = []
  /\ cached (scan sample_g sample_json (mode_of 1) (state_at []) lines).1 = [].
Proof.
  intros lines. split; [reflexivity|]. split; [reflexivity|].
  apply (cached_unused sample_g sample_json (mode_of 1) lines (state_at []));
    reflexivity.
Defined.

Lemma cached_events_witness :
  let lines := [log_line "10:00:00" 1 (" [Step 2/2] " +:+ json_output)] in
  all_events (cached (state_at []))
  /\ all_events
       (cached (scan sample_g sample_json (mode_of 0) (state_at []) lines).1)
  /\ length (cached (scan sample_g sample_json (mode_of 0) (state_at [])
                       lines).1) = 1%nat.
Proof.
  intros lines.
  assert (all_events (cached (state_at []))) as H by constructor.
  split; [exact H|]. split; [|vm_compute; reflexivity].
  exact (cached_events sample_g sample_json (mode_of 0) lines (state_at []) H).
Defined.

Lemma root_record_shown_witness :
  let st := state_at [] in
  let ll := record "10:00:00" 0 [] " Build finished" "Build finished" in
  slen (stack st) = O /\ testEvent_ ll = None
  /\ logparse (raw ll) = Ok (Some ll)
  /\ out (process sample_g sample_json (mode_of verboseTestOutput) ll st)
     = out st ++ rows (firstMassaged st) (time ll) [(time ll, text ll)].
Proof.
  intros st ll. split; [reflexivity|]. split; [reflexivity|].
  split; [vm_compute; reflexivity|].
  exact (root_record_shown sample_g sample_json ll st eq_refl eq_refl).
Defined.

Lemma verbose_event_witness :
  let st := state_at ["Step 2/2"] in
  let ll := record "10:00:00" 1 ["Step 2/2"] (" [Step 2/2] " +:+ json_output)
              json_output in
  buildStep_of (stack st) = true
  /\ HasPrefix (text ll) "{" = true
  /\ sample_json (text ll) = Some ev_output
  /\ Action ev_output <> ""
  /\ out (process sample_g sample_json (mode_of verboseGoTestVerbose) ll st)
     = out st ++ rows (firstMassaged st) (time ll)
                   (if String.eqb (Action ev_output) "output"
                    then [(time ll, Output ev_output)] else []).
Proof.
  intros st ll.
  assert (Action ev_output <> "") as Hne by discriminate.
  do 3 (split; [reflexivity|]). split; [exact Hne|].
  exact (verbose_event sample_g sample_json ll ev_output st
           eq_refl eq_refl eq_refl Hne).
Defined.

Lemma testoutput_event_witness :
  let st := state_at ["Step 2/2"] in
  let ll := record "10:00:00" 1 ["Step 2/2"] (" [Step 2/2] " +:+ json_fail)
              json_fail in
  buildStep_of (stack st) = true
  /\ stackHas (stack st) "Step 1/2" = false
  /\ HasPrefix (text ll) "{" = true
  /\ sample_json (text ll) = Some ev_fail
  /\ Action ev_fail <> ""
  /\ out (process sample_g sample_json (mode_of verboseTestOutput) ll st)
     = out st ++ rows (firstMassaged st) (time ll)
                   (if String.eqb (Action ev_fail) "fail"
                    then [(time ll, "FAIL" +:+ TAB +:+ Package ev_fail)]
                    else []).
Proof.
  intros st ll.
  assert (Action ev_fail <> "") as Hne by discriminate.
  do 4 (split; [reflexivity|]). split; [exact Hne|].
  exact (testoutput_event sample_g sample_json ll ev_fail st
           eq_refl eq_refl eq_refl eq_refl Hne).
Defined.

Lemma not_top_hidden_witness :
  let st := state_at ["Step 2/2"; "Test Output"] in
  let ll := record "10:00:00" 2 ["Test Output"] " [Test Output] case 1"
              "case 1" in
  (0 = 1 \/ (0 = 0 /\ HasPrefix (text ll) "Go " = false))
  /\ testEvent_ (decode_event sample_json (buildStep_of (stack st)) ll) = None
  /\ topOfStackIs (stack st) "Step 2/2" = false
  /\ out (process sample_g sample_json (mode_of 0) ll st) = out st.
Proof.
  intros st ll.
  assert (0 = 1 \/ (0 = 0 /\ HasPrefix (text ll) "Go " = false)) as Hv
      by (right; split; reflexivity).
  split; [exact Hv|]. do 2 (split; [reflexivity|]).
  exact (not_top_hidden sample_g sample_json 0 ll st Hv eq_refl eq_refl).
Defined.


Lemma log_command_spec_witness :
  let pre := ["-v"] in
  let post := ["-vv"] in
  is_flag "build.log" = false
  /\ forallb is_flag post = true
  /\ log_args (pre ++ "build.log" :: post) = (flag_levels (pre ++ post), "build.log")
  /\ log_command (pre ++ "build.log" :: post) = Cleanup "build.log" 3
  /\ log_command post = Usage.
Proof.
  intros pre post.
  destruct (log_command_spec pre post "build.log" eq_refl eq_refl)
    as (H1 & H2 & H3 & _).
  split; [reflexivity|]. split; [reflexivity|].
  split; [exact H1|]. split; [exact H2|exact H3].
Defined.

Lemma table_entry_cell_witness :
  lacks "/" "Delve_linux_amd64_1_17" = true
  /\ table_entry "Delve_linux_amd64_1_17" = Some ("linux/amd64", "1_17")
  /\ cell_type "linux/amd64" "1_17" = "Delve_linux_amd64_1_17".
Proof.
  split; [reflexivity|]. split; [reflexivity|].
  exact (proj1 (table_entry_cell "Delve_linux_amd64_1_17" "linux/amd64" "1_17"
                  eq_refl eq_refl)).
Defined.
